(** * mpact-riscv: RV32 bit-manipulation semantics and simulator start-up

    A shallow embedding of
    - [riscv/riscv_bitmanip_instructions.cc]: the operations that the
      semantic functions of namespace [RV32] hand to [RiscVBinaryOp] and
      [RiscVUnaryOp];
    - [riscv/rv32gv_sim.cc]: the flag declarations and [main], as a trace
      of the calls it makes on its collaborators.

    Register values ([UIntReg = uint32_t]) are integers in [0, 2^32) with the
    wrap-around written out; the loader's symbol table is a finite map. *)

From Stdlib Require Import ZArith Bool List Lia.
From stdpp Require Import base option list list_numbers gmap strings.

Local Open Scope Z_scope.

(** ** Machine words *)

(** [constexpr int kXlen = sizeof(UIntReg) * 8]. *)
Definition kXlen : Z := 32.

(** Conversion of a mathematical result to [uint32_t]. *)
Definition wrap32 (v : Z) : Z := v mod 2 ^ 32.

(** Conversion of a mathematical result to [uint64_t]. *)
Definition wrap64 (v : Z) : Z := v mod 2 ^ 64.

(** [~v] on a [uint32_t]. *)
Definition not32 (v : Z) : Z := wrap32 (Z.lnot v).

(** [a << n] on a [uint32_t], for a count [0 <= n < 32]. *)
Definition shl32 (a n : Z) : Z := wrap32 (Z.shiftl a n).

(** [a >> n] on a [uint32_t], for a count [0 <= n < 32]. *)
Definition shr32 (a n : Z) : Z := Z.shiftr a n.

(** [a - b] on [uint32_t] operands. *)
Definition sub32 (a b : Z) : Z := wrap32 (a - b).

(** C++ leaves a shift undefined when the count is not smaller than the
    width of the promoted left operand.  The checked shifts make that
    explicit: [None] stands for undefined behaviour. *)
Definition shl32_checked (a n : Z) : option Z :=
  if decide (0 <= n < 32) then Some (shl32 a n) else None.

Definition shr32_checked (a n : Z) : option Z :=
  if decide (0 <= n < 32) then Some (shr32 a n) else None.

(** A value of type [UIntReg]. *)
Definition is_u32 (v : Z) : Prop := 0 <= v < 2 ^ 32.

(** [for (int i = lo; i < hi; i++) result = body(result, i);] *)
Definition for_loop {A} (lo hi : Z) (body : A -> Z -> A) (init : A) : A :=
  fold_left body (seqZ lo (hi - lo)) init.

(** ** Abseil bit counting *)

(** Modelled from the spec: [absl::countl_zero], [absl::countr_zero] and
    [absl::popcount] come from [absl/numeric/bits.h], which is not part of
    the sources.  The spec names them "clz, ctz, cpop over 32 bits": the
    number of zero bits above the highest set bit, below the lowest set bit,
    and the number of set bits; a zero word has 32 leading and 32 trailing
    zeros. *)
Fixpoint countl_zero_below (width : nat) (a : Z) : Z :=
  match width with
  | O => 0
  | S w => if Z.testbit a (Z.of_nat w) then 0 else 1 + countl_zero_below w a
  end.

Definition countl_zero (a : Z) : Z := countl_zero_below 32 a.

Fixpoint countr_zero_from (fuel : nat) (i : Z) (a : Z) : Z :=
  match fuel with
  | O => 0
  | S k => if Z.testbit a i then 0 else 1 + countr_zero_from k (i + 1) a
  end.

Definition countr_zero (a : Z) : Z := countr_zero_from 32 0 a.

Definition popcount (a : Z) : Z :=
  for_loop 0 32 (fun n i => n + Z.b2z (Z.testbit a i)) 0.

(** ** Operand access *)

(** Modelled from the spec: [RiscVBinaryOp<Register, Result, Argument>] and
    [RiscVUnaryOp<Register, Result, Argument>] are declared in
    [riscv/riscv_instruction_helpers.h], which is not part of the sources.
    They read the source registers as values of type [Argument], apply the
    lambda and write its [Result] to the destination register.  The spec has
    the integer semantics as "32-bit two's-complement; signed/unsigned as
    noted" and the extensions as "narrow then widen with/without sign
    extension": a register read as [intN_t] is the two's-complement value of
    its low [N] bits, read as [uintN_t] the low [N] bits themselves, and a
    signed result is stored modulo [2^32]. *)
Definition as_signed (width v : Z) : Z :=
  let u := v mod 2 ^ width in
  if decide (u < 2 ^ (width - 1)) then u else u - 2 ^ width.

Definition as_unsigned (width v : Z) : Z := v mod 2 ^ width.

(** ** Semantic functions of namespace RV32

    Each definition is the lambda that the C++ function of the same name
    passes to [RiscVBinaryOp<RV32Register, UIntReg, UIntReg>] (operands
    [a = rs1], [b = rs2]) or to [RiscVUnaryOp] (operand [a = rs1]); the
    helper writes the returned value to [rd]. *)
Module RV32.

(** And not: [a & ~b]. *)
Definition RiscVAndn (a b : Z) : Z := Z.land a (not32 b).

(** Or not: [a | ~b]. *)
Definition RiscVOrn (a b : Z) : Z := Z.lor a (not32 b).

(** Xnor: [~(a ^ b)]. *)
Definition RiscVXnor (a b : Z) : Z := not32 (Z.lxor a b).

(** Count leading zeros. *)
Definition RiscVClz (a : Z) : Z := countl_zero a.

(** Count trailing zeros. *)
Definition RiscVCtz (a : Z) : Z := countr_zero a.

(** Bit population count. *)
Definition RiscVCpop (a : Z) : Z := popcount a.

(** Rotate left: [(a << b) | (a >> (32 - b))].  Neither count is masked,
    so both shifts are checked. *)
Definition RiscVrol (a b : Z) : option Z :=
  l ← shl32_checked a b;
  r ← shr32_checked a (sub32 32 b);
  Some (Z.lor l r).

(** Rotate right: [(a >> b) | (a << (32 - b))]. *)
Definition RiscVror (a b : Z) : option Z :=
  r ← shr32_checked a b;
  l ← shl32_checked a (sub32 32 b);
  Some (Z.lor r l).

(** Byte reverse: the loop state is the pair [(result, a)]. *)
Definition rev8_step (st : Z * Z) (i : Z) : Z * Z :=
  let '(result, a) := st in
  let result := shl32 result 8 in
  let result := Z.lor result (Z.land a 255) in
  let a := shr32 a 8 in
  (result, a).

Definition RiscVRev8 (a : Z) : Z :=
  fst (for_loop 0 4 rev8_step (0, a)).

(** Carry-less multiplication, low 32 bits. *)
Definition RiscVClmul (a b : Z) : Z :=
  for_loop 0 kXlen
    (fun result i =>
       if decide (Z.land (shr32 b i) 1 <> 0)
       then Z.lxor result (shl32 a i) else result) 0.

(** Carry-less multiplication, high 32 bits. *)
Definition RiscVClmulh (a b : Z) : Z :=
  for_loop 1 kXlen
    (fun result i =>
       if decide (Z.land (shr32 b i) 1 <> 0)
       then Z.lxor result (shr32 a (kXlen - i)) else result) 0.

(** Reverse carry-less multiplication. *)
Definition RiscVClmulr (a b : Z) : Z :=
  for_loop 0 (kXlen - 1)
    (fun result i =>
       if decide (Z.land (shr32 b i) 1 <> 0)
       then Z.lxor result (shr32 a (kXlen - i - 1)) else result) 0.

(** Clear bit: [a & ~(1U << (b & 0x1f))]. *)
Definition RiscVBclr (a b : Z) : Z :=
  Z.land a (not32 (shl32 1 (Z.land b 31))).

(** Extract bit: [(a >> (b & 0x1f)) & 0x1]. *)
Definition RiscVBext (a b : Z) : Z :=
  Z.land (shr32 a (Z.land b 31)) 1.

(** Invert bit: [a ^ (1U << (b & 0x1f))]. *)
Definition RiscVBinv (a b : Z) : Z :=
  Z.lxor a (shl32 1 (Z.land b 31)).

(** Set bit: [a | (1U << (b & 0x1f))]. *)
Definition RiscVBset (a b : Z) : Z :=
  Z.lor a (shl32 1 (Z.land b 31)).

(** Add with shift: [b + (a << shift)], the count being source operand 2
    read as [UIntReg]; it is not masked, so the shift is checked. *)
Definition RiscVShAdd (shift a b : Z) : option Z :=
  s ← shl32_checked a shift;
  Some (wrap32 (b + s)).

(** Signed max: [std::max(a, b)] on [IntReg] operands. *)
Definition RiscVMax (a b : Z) : Z :=
  wrap32 (Z.max (as_signed 32 a) (as_signed 32 b)).

(** Unsigned max. *)
Definition RiscVMaxu (a b : Z) : Z := Z.max a b.

(** Signed min. *)
Definition RiscVMin (a b : Z) : Z :=
  wrap32 (Z.min (as_signed 32 a) (as_signed 32 b)).

(** Unsigned min. *)
Definition RiscVMinu (a b : Z) : Z := Z.min a b.

(** Sign extend byte: the operand is read as [int8_t] and cast to
    [IntReg]. *)
Definition RiscVSextB (a : Z) : Z := wrap32 (as_signed 8 a).

(** Sign extend half word. *)
Definition RiscVSextH (a : Z) : Z := wrap32 (as_signed 16 a).

(** Zero extend half word. *)
Definition RiscVZextH (a : Z) : Z := wrap32 (as_unsigned 16 a).

(** Or combine (byte wise): the loop state is the pair [(mask, result)]. *)
Definition orcb_step (a : Z) (st : Z * Z) (i : Z) : Z * Z :=
  let '(mask, result) := st in
  let result :=
    if decide (Z.land a mask <> 0) then Z.lor result mask else result in
  let mask := shl32 mask 8 in
  (mask, result).

Definition RiscVOrcb (a : Z) : Z :=
  snd (for_loop 0 4 (orcb_step a) (255, 0)).

End RV32.

(** ** The simulator driver, [rv32gv_sim.cc] *)
Module Sim.

(** The values [absl::GetFlag] returns for the flags of the driver. *)
Record Flags := {
  FLAGS_i : bool;
  FLAGS_interactive : bool;
  FLAGS_output_dir : string;
  FLAGS_semihost_htif : bool;
  FLAGS_semihost_arm : bool;
  FLAGS_stack_size : option Z;
  FLAGS_stack_end : option Z;
  FLAGS_exit_on_ecall : bool;
}.

(** The defaults of the [ABSL_FLAG] declarations: what [absl::GetFlag]
    returns when the command line does not mention a flag.  The two
    [std::optional<uint64_t>] flags are declared with the defaults
    [32 * 1024] and [0], which are engaged optionals; an explicitly empty
    value ([--stack_end=]) parses to [std::nullopt]. *)
Definition default_flags : Flags := {|
  FLAGS_i := false;
  FLAGS_interactive := false;
  FLAGS_output_dir := "";
  FLAGS_semihost_htif := false;
  FLAGS_semihost_arm := false;
  FLAGS_stack_size := Some (32 * 1024);
  FLAGS_stack_end := Some 0;
  FLAGS_exit_on_ecall := false;
|}.

Definition kStackEndSymbolName : string := "__stack_end".
Definition kStackSizeSymbolName : string := "__stack_size".

(** [mpact::sim::util::ElfProgramLoader] as the driver uses it: the
    result of [LoadProgram] (the entry point, or an error), the symbol
    table behind [GetSymbol] (name to address and size) and the result of
    [GetStackSize] (the size of the GNU_STACK segment, if there is one). *)
Record ElfProgramLoader := {
  LoadProgram : string -> option Z;
  symbols : gmap string (Z * Z);
  GetStackSize : option Z;
}.

Definition GetSymbol (loader : ElfProgramLoader) (name : string)
  : option (Z * Z) := symbols loader !! name.

(** [RiscV32HtifSemiHost::SemiHostAddresses]. *)
Record SemiHostAddresses := {
  tohost_ready : Z;
  tohost : Z;
  fromhost_ready : Z;
  fromhost : Z;
}.

(** Helper function to get the magic semihosting addresses from the
    loader; [None] is the [false] return. *)
Definition GetMagicAddresses (loader : ElfProgramLoader)
  : option SemiHostAddresses :=
  r1 ← GetSymbol loader "tohost_ready";
  r2 ← GetSymbol loader "tohost";
  r3 ← GetSymbol loader "fromhost_ready";
  r4 ← GetSymbol loader "fromhost";
  Some {| tohost_ready := r1.1; tohost := r2.1;
          fromhost_ready := r3.1; fromhost := r4.1 |}.

(** Initializing the stack pointer: the value [main] passes to
    [WriteRegister("sp", ...)], or [None] when it does not initialize the
    stack.  The mutable locals [initialize_stack], [stack_end] and
    [stack_size] are rebound in the order of the assignments. *)
Definition sp_initial_value (flags : Flags) (elf_loader : ElfProgramLoader)
  : option Z :=
  let initialize_stack := false in
  let stack_end := 0 in
  (* Is the __stack_end symbol defined? *)
  let '(stack_end, initialize_stack) :=
    match GetSymbol elf_loader kStackEndSymbolName with
    | Some res => (res.1, true)
    | None => (stack_end, initialize_stack)
    end in
  (* The stack_end flag overrides the __stack_end symbol. *)
  let '(stack_end, initialize_stack) :=
    match FLAGS_stack_end flags with
    | Some v => (v, true)
    | None => (stack_end, initialize_stack)
    end in
  if initialize_stack : bool then
    (* Default size is 32KB. *)
    let stack_size := 32 * 1024 in
    (* GNU_STACK segment: the source assigns its size to stack_end. *)
    let stack_end :=
      match GetStackSize elf_loader with
      | Some v => v
      | None => stack_end
      end in
    (* If the __stack_size symbol is defined then override. *)
    let stack_size :=
      match GetSymbol elf_loader kStackSizeSymbolName with
      | Some res => res.1
      | None => stack_size
      end in
    (* If the flag is set, then override. *)
    let stack_size :=
      match FLAGS_stack_size flags with
      | Some v => v
      | None => stack_size
      end in
    Some (wrap64 (stack_end + stack_size))
  else None.

(** What [main] does to the outside world, in order. *)
Inductive Event :=
| LogError (msg : string)
| Cerr (msg : string)
| NewMemory
| CallLoadProgram (file : string)
| NewState
| NewDecoder
| NewTop
| SetOnEcall
| WriteRegister (name : string) (value : Z)
| NewHtifSemihost (magic : SemiHostAddresses)
| NewArmSemihost
| AddCounter
| InstallSigintHandler
| ShellRun
| TopRun
| TopWait
| ExportCounters
| WriteProto
| ClearAllSwBreakpoints.

(** Equality test on the events that carry no data. *)
Definition same_event (a b : Event) : bool :=
  match a, b with
  | NewMemory, NewMemory | NewState, NewState | NewDecoder, NewDecoder
  | NewTop, NewTop | SetOnEcall, SetOnEcall | NewArmSemihost, NewArmSemihost
  | AddCounter, AddCounter | InstallSigintHandler, InstallSigintHandler
  | ShellRun, ShellRun | TopRun, TopRun | TopWait, TopWait
  | ExportCounters, ExportCounters | WriteProto, WriteProto
  | ClearAllSwBreakpoints, ClearAllSwBreakpoints => true
  | _, _ => false
  end.

(** How [main] ends: it returns a code, a [CHECK_OK] aborts the process,
    or it indexes [arg_vec] out of range. *)
Inductive Result :=
| Return (code : Z)
| Abort
| Undefined.

(** The outcomes of the calls whose status [main] inspects. *)
Record Env := {
  elf_loader : ElfProgramLoader;
  pc_write_ok : bool;
  sp_write_ok : bool;
  add_counter_ok : bool;
  run_ok : bool;
  wait_ok : bool;
  export_ok : bool;
  proto_ok : bool;
  clear_ok : bool;
}.

(** A computation appends to the trace and either goes on with a value
    or ends [main]. *)
Definition M (A : Type) : Type := list Event -> list Event * (A + Result).

#[global] Instance M_ret : MRet M := fun A a tr => (tr, inl a).

#[global] Instance M_bind : MBind M := fun A B f c tr =>
  match c tr with
  | (tr', inl a) => f a tr'
  | (tr', inr r) => (tr', inr r)
  end.

Definition emit (e : Event) : M unit := fun tr => (tr ++ [e], inl tt).

Definition finish {A} (r : Result) : M A := fun tr => (tr, inr r).

Definition when (c : bool) (body : M unit) : M unit :=
  if c then body else mret tt.

(** [CHECK_OK(status)]. *)
Definition check_ok (ok : bool) : M unit :=
  if ok then mret tt else finish Abort.

Definition run_main (c : M Result) : list Event * Result :=
  match c [] with
  | (tr, inl r) => (tr, r)
  | (tr, inr r) => (tr, r)
  end.

(** [int main(int argc, char **argv)], after [absl::ParseCommandLine] has
    produced [arg_vec] and the flag values.  The computation of the proto
    file name and the timing of the run are left out; messages keep their
    literal part. *)
Definition main (flags : Flags) (arg_vec : list string) (env : Env)
  : list Event * Result :=
  run_main (
    when (FLAGS_semihost_htif flags && FLAGS_semihost_arm flags) (
      emit (LogError "Cannot specify both htif and arm semihosting");;
      emit (Cerr "Only one semihosting mechanism can be specified"));;
    when (bool_decide (2 < length arg_vec)%nat) (
      emit (Cerr "Only a single input file allowed");;
      finish (Return (-1)));;
    full_file_name ← match arg_vec !! 1%nat with
                     | Some f => mret f
                     | None => finish Undefined
                     end;
    emit NewMemory;;
    (* Load the elf segments into memory. *)
    emit (CallLoadProgram full_file_name);;
    load_result ← match LoadProgram (elf_loader env) full_file_name with
                  | Some entry => mret entry
                  | None => emit (Cerr "Error while loading");;
                            finish (Return (-1))
                  end;
    (* Set up architectural state and decoder. *)
    emit NewState;;
    emit NewDecoder;;
    emit NewTop;;
    when (FLAGS_exit_on_ecall flags) (emit SetOnEcall);;
    (* Initialize the PC to the entry point. *)
    let entry_point := wrap32 load_result in
    emit (WriteRegister "pc" entry_point);;
    when (negb (pc_write_ok env)) (
      emit (Cerr "Error writing to pc: ");;
      finish (Return (-1)));;
    (* Initializing the stack pointer. *)
    match sp_initial_value flags (elf_loader env) with
    | Some sp =>
        emit (WriteRegister "sp" sp);;
        when (negb (sp_write_ok env)) (
          emit (Cerr "Error writing to sp: ");;
          finish (Return (-1)))
    | None => mret tt
    end;;
    when (FLAGS_semihost_htif flags) (
      match GetMagicAddresses (elf_loader env) with
      | Some magic_addresses => emit (NewHtifSemihost magic_addresses)
      | None => mret tt
      end);;
    when (FLAGS_semihost_arm flags) (emit NewArmSemihost);;
    emit AddCounter;;
    check_ok (add_counter_ok env);;
    (* Set up control-c handling. *)
    emit InstallSigintHandler;;
    (* Determine if this is being run interactively or as a batch job. *)
    let interactive := FLAGS_i flags || FLAGS_interactive flags in
    (if interactive then emit ShellRun
     else
       emit (Cerr "Starting simulation");;
       emit TopRun;;
       when (negb (run_ok env)) (emit (Cerr "run_status"));;
       emit TopWait;;
       when (negb (wait_ok env)) (emit (Cerr "wait_status"));;
       emit (Cerr "Simulation done"));;
    (* Export counters. *)
    emit ExportCounters;;
    check_ok (export_ok env);;
    (if proto_ok env then emit WriteProto
     else emit (LogError "Failed to write proto to file"));;
    (* Cleanup. *)
    emit ClearAllSwBreakpoints;;
    when (negb (clear_ok env)) (
      emit (LogError "Error in ClearAllSwBreakpoints: "));;
    mret (Return 0)).

End Sim.

(** ** Reference definitions

    What the specification's words denote, independently of the code. *)
Module Ref.

(** The exclusive-or of [f i] over [lo <= i < hi]. *)
Definition xor_range (f : Z -> bool) (lo hi : Z) : bool :=
  for_loop lo hi (fun acc i => xorb acc (f i)) false.

(** Coefficient [n] of the product of the GF(2) polynomials whose
    coefficients are the bits of [a] and [b]: the sum modulo 2 of
    [b_j * a_(n-j)] over [0 <= j <= n]. *)
Definition clprod_bit (a b n : Z) : bool :=
  xor_range (fun j => Z.testbit b j && Z.testbit a (n - j)) 0 (n + 1).

(** The number whose bit [n] is [f n] for [0 <= n < width]. *)
Definition Z_of_bits (width : Z) (f : Z -> bool) : Z :=
  for_loop 0 width (fun acc n => Z.lor acc (if f n then 2 ^ n else 0)) 0.

(** The 64-bit carry-less product of two 32-bit operands. *)
Definition clprod (a b : Z) : Z := Z_of_bits 64 (clprod_bit a b).

(** Bits [hi : lo] of [v]. *)
Definition bits (v hi lo : Z) : Z := Z.shiftr v lo mod 2 ^ (hi - lo + 1).

(** Byte [k] of a word, byte 0 being the least significant. *)
Definition byte_of (v k : Z) : Z := bits v (8 * k + 7) (8 * k).

(** The word with the order of its 32 bits reversed. *)
Definition bitrev32 (v : Z) : Z := Z_of_bits 32 (fun n => Z.testbit v (31 - n)).

(** Rotations of a 32-bit word by [0 <= k < 32]. *)
Definition rotl32 (x k : Z) : Z :=
  wrap32 (Z.lor (Z.shiftl x k) (Z.shiftr x (32 - k))).

Definition rotr32 (x k : Z) : Z :=
  wrap32 (Z.lor (Z.shiftr x k) (Z.shiftl x (32 - k))).

(** Stack initialization as the specification words it: the stack base
    comes from the flag or the [__stack_end] symbol, the flag winning. *)
Definition stack_base (flags : Sim.Flags) (loader : Sim.ElfProgramLoader)
  : option Z :=
  match Sim.FLAGS_stack_end flags with
  | Some v => Some v
  | None => fst <$> Sim.GetSymbol loader Sim.kStackEndSymbolName
  end.

(** The stack size: the flag if set, else the [__stack_size] symbol, else
    the GNU_STACK segment size, else 32 KiB. *)
Definition stack_size (flags : Sim.Flags) (loader : Sim.ElfProgramLoader)
  : Z :=
  match Sim.FLAGS_stack_size flags with
  | Some v => v
  | None =>
      match Sim.GetSymbol loader Sim.kStackSizeSymbolName with
      | Some res => res.1
      | None =>
          match Sim.GetStackSize loader with
          | Some v => v
          | None => 32 * 1024
          end
      end
  end.

(** [sp] after initialization, when a stack base is known. *)
Definition initial_sp (flags : Sim.Flags) (loader : Sim.ElfProgramLoader)
  : option Z :=
  base ← stack_base flags loader;
  Some (wrap64 (base + stack_size flags loader)).

End Ref.

(** ** Concrete inputs *)

(** An executable defining [__stack_end = 0x200000] and
    [__stack_size = 0x8000], with a GNU_STACK segment or without. *)
Definition stack_symbols : gmap string (Z * Z) :=
  <["__stack_end" := (0x200000, 0)]> (<["__stack_size" := (0x8000, 0)]> ∅).

Definition elf_plain : Sim.ElfProgramLoader := {|
  Sim.LoadProgram := fun _ => Some 0x10000;
  Sim.symbols := stack_symbols;
  Sim.GetStackSize := None;
|}.

Definition elf_gnu_stack : Sim.ElfProgramLoader := {|
  Sim.LoadProgram := fun _ => Some 0x10000;
  Sim.symbols := stack_symbols;
  Sim.GetStackSize := Some 0x10000;
|}.

(** Both optional stack flags given an empty value. *)
Definition flags_unset : Sim.Flags := {|
  Sim.FLAGS_i := false;
  Sim.FLAGS_interactive := false;
  Sim.FLAGS_output_dir := "";
  Sim.FLAGS_semihost_htif := false;
  Sim.FLAGS_semihost_arm := false;
  Sim.FLAGS_stack_size := None;
  Sim.FLAGS_stack_end := None;
  Sim.FLAGS_exit_on_ecall := false;
|}.

(** [--semihost_htif --semihost_arm]. *)
Definition flags_both_semihost : Sim.Flags := {|
  Sim.FLAGS_i := false;
  Sim.FLAGS_interactive := false;
  Sim.FLAGS_output_dir := "";
  Sim.FLAGS_semihost_htif := true;
  Sim.FLAGS_semihost_arm := true;
  Sim.FLAGS_stack_size := Some (32 * 1024);
  Sim.FLAGS_stack_end := Some 0;
  Sim.FLAGS_exit_on_ecall := false;
|}.

(** Every inspected call succeeds. *)
Definition env_ok (loader : Sim.ElfProgramLoader) : Sim.Env := {|
  Sim.elf_loader := loader;
  Sim.pc_write_ok := true;
  Sim.sp_write_ok := true;
  Sim.add_counter_ok := true;
  Sim.run_ok := true;
  Sim.wait_ok := true;
  Sim.export_ok := true;
  Sim.proto_ok := true;
  Sim.clear_ok := true;
|}.

(** * Properties *)

(** ** Sanity checks of the reference definitions *)

Example clprod_small : Ref.clprod 3 3 = 5 /\ Ref.clprod 7 5 = 27.
Proof. split; vm_compute; reflexivity. Qed.

Example clprod_ones :
  Ref.clprod 0xFFFFFFFF 0xFFFFFFFF = 0x5555555555555555.
Proof. vm_compute. reflexivity. Qed.

Example clmul_ones : RV32.RiscVClmul 0xFFFFFFFF 0xFFFFFFFF = 0x55555555.
Proof. vm_compute. reflexivity. Qed.

(** ** Bits of 32-bit words *)

Lemma is_u32_high_bits (a n : Z) : is_u32 a -> 32 <= n -> Z.testbit a n = false.
Proof.
  intros [H0 H1] Hn.
  rewrite <- (Z.mod_small a (2 ^ 32)) by lia.
  apply Z.mod_pow2_bits_high. lia.
Qed.

Lemma wrap32_is_u32 (v : Z) : is_u32 (wrap32 v).
Proof. unfold is_u32, wrap32. apply Z.mod_pos_bound. lia. Qed.

Lemma wrap32_testbit (v n : Z) :
  Z.testbit (wrap32 v) n = (n <? 32) && Z.testbit v n.
Proof. unfold wrap32. apply Z.testbit_mod_pow2. lia. Qed.

Lemma not32_testbit (v n : Z) :
  0 <= n -> Z.testbit (not32 v) n = (n <? 32) && negb (Z.testbit v n).
Proof.
  intros Hn. unfold not32. rewrite wrap32_testbit, Z.lnot_spec by lia.
  reflexivity.
Qed.

Lemma shl32_testbit (a k n : Z) :
  0 <= n -> Z.testbit (shl32 a k) n = (n <? 32) && Z.testbit a (n - k).
Proof.
  intros Hn. unfold shl32. rewrite wrap32_testbit, Z.shiftl_spec by lia.
  reflexivity.
Qed.

Lemma shr32_testbit (a k n : Z) :
  0 <= n -> Z.testbit (shr32 a k) n = Z.testbit a (n + k).
Proof. intros Hn. unfold shr32. apply Z.shiftr_spec. lia. Qed.

Lemma u32_of_bits (v : Z) :
  0 <= v -> (forall n, 32 <= n -> Z.testbit v n = false) -> is_u32 v.
Proof.
  intros Hv Hbits. split; [lia|].
  destruct (decide (v < 2 ^ 32)) as [|Hge]; [lia|].
  assert (Hpos : 0 < v) by lia.
  pose proof (Z.bit_log2 v Hpos) as Hlog.
  assert (32 <= Z.log2 v) by (apply Z.log2_le_pow2; lia).
  rewrite Hbits in Hlog by lia. discriminate.
Qed.

Lemma land_1_testbit (v : Z) : Z.land v 1 = Z.b2z (Z.testbit v 0).
Proof.
  change 1 with (Z.ones 1) at 1. rewrite Z.land_ones by lia.
  rewrite Z.bit0_mod. reflexivity.
Qed.

Lemma land_31_mod (b : Z) : Z.land b 31 = b mod 32.
Proof. change 31 with (Z.ones 5). rewrite Z.land_ones by lia. reflexivity. Qed.

Lemma shl32_1 (k : Z) : 0 <= k < 32 -> shl32 1 k = 2 ^ k.
Proof.
  intros Hk. unfold shl32, wrap32. rewrite Z.shiftl_1_l.
  apply Z.mod_small. split; [lia|]. apply Z.pow_lt_mono_r; lia.
Qed.

(** Two words are equal when their low 32 bits agree. *)
Lemma u32_bits_eq (a b : Z) :
  is_u32 a -> is_u32 b ->
  (forall n, 0 <= n < 32 -> Z.testbit a n = Z.testbit b n) -> a = b.
Proof.
  intros Ha Hb Heq. apply Z.bits_inj'. intros n Hn.
  destruct (decide (n < 32)); [apply Heq; lia|].
  rewrite !is_u32_high_bits by (assumption || lia). reflexivity.
Qed.

(** ** Logical operations with negate *)

Lemma not32_0 : not32 0 = 0xFFFFFFFF.
Proof. reflexivity. Qed.

Lemma not32_ones : not32 0xFFFFFFFF = 0.
Proof. reflexivity. Qed.

Lemma land_ones32 (x : Z) : is_u32 x -> Z.land x 0xFFFFFFFF = x.
Proof.
  intros Hx. change 0xFFFFFFFF with (Z.ones 32).
  rewrite Z.land_ones by lia. apply Z.mod_small. exact Hx.
Qed.

Lemma lor_ones32 (x : Z) : is_u32 x -> Z.lor x 0xFFFFFFFF = 0xFFFFFFFF.
Proof.
  intros Hx. change 0xFFFFFFFF with (Z.ones 32).
  apply Z.bits_inj'. intros n Hn.
  rewrite Z.lor_spec, Z.testbit_ones_nonneg by lia.
  destruct (Z.ltb_spec n 32) as [Hlt|Hge].
  - apply orb_true_r.
  - rewrite is_u32_high_bits by (assumption || lia). reflexivity.
Qed.

(** C9: for every 32-bit [x], [andn(x, 0) = x], [andn(x, ~0) = 0],
    [orn(x, 0) = ~0] and [xnor(x, x) = ~0], where [~0] is the all-ones
    word. *)
Theorem logic_negate_identities (x : Z) (Hx : is_u32 x) :
  RV32.RiscVAndn x 0 = x /\
  RV32.RiscVAndn x (not32 0) = 0 /\
  RV32.RiscVOrn x 0 = not32 0 /\
  RV32.RiscVXnor x x = not32 0.
Proof.
  unfold RV32.RiscVAndn, RV32.RiscVOrn, RV32.RiscVXnor.
  rewrite !not32_0, not32_ones, Z.lxor_nilpotent, not32_0.
  repeat split.
  - apply land_ones32, Hx.
  - apply Z.land_0_r.
  - apply lor_ones32, Hx.
Qed.

Lemma logic_negate_identities_witness :
  is_u32 0x1234ABCD /\
  RV32.RiscVAndn 0x1234ABCD 0 = 0x1234ABCD /\
  RV32.RiscVAndn 0x1234ABCD (not32 0) = 0 /\
  RV32.RiscVOrn 0x1234ABCD 0 = not32 0 /\
  RV32.RiscVXnor 0x1234ABCD 0x1234ABCD = not32 0.
Proof.
  assert (H : is_u32 0x1234ABCD) by (unfold is_u32; lia).
  split; [exact H | exact (logic_negate_identities 0x1234ABCD H)].
Defined.

(** ** Single-bit operations *)

Lemma bit_index_range (b : Z) : 0 <= Z.land b 31 < 32.
Proof. rewrite land_31_mod. apply Z.mod_pos_bound. lia. Qed.

Lemma RiscVBset_setbit (x b : Z) :
  RV32.RiscVBset x b = Z.setbit x (b mod 32).
Proof.
  unfold RV32.RiscVBset. rewrite shl32_1 by apply bit_index_range.
  rewrite land_31_mod, Z.setbit_spec'. reflexivity.
Qed.

Lemma RiscVBinv_lxor (x b : Z) :
  RV32.RiscVBinv x b = Z.lxor x (2 ^ (b mod 32)).
Proof.
  unfold RV32.RiscVBinv. rewrite shl32_1 by apply bit_index_range.
  rewrite land_31_mod. reflexivity.
Qed.

Lemma RiscVBclr_clearbit (x b : Z) :
  is_u32 x -> RV32.RiscVBclr x b = Z.clearbit x (b mod 32).
Proof.
  intros Hx. unfold RV32.RiscVBclr.
  rewrite shl32_1 by apply bit_index_range.
  rewrite land_31_mod, Z.clearbit_spec'.
  apply Z.bits_inj'. intros n Hn.
  rewrite Z.land_spec, Z.ldiff_spec, not32_testbit by lia.
  destruct (Z.ltb_spec n 32) as [Hlt|Hge]; [reflexivity|].
  rewrite is_u32_high_bits by (assumption || lia). reflexivity.
Qed.

Lemma RiscVBext_testbit (x b : Z) :
  RV32.RiscVBext x b = Z.b2z (Z.testbit x (b mod 32)).
Proof.
  unfold RV32.RiscVBext. rewrite land_1_testbit, shr32_testbit by lia.
  rewrite land_31_mod. reflexivity.
Qed.

(** C7: [bclr], [bset], [binv] and [bext] act on bit [rs2 mod 32] of their
    first operand, and for a 32-bit [x] and [k] in [0, 31],
    [bext(bset(x, k), k) = 1] and [bclr(bset(x, k), k) = bclr(x, k)]. *)
Theorem single_bit_ops (x b k : Z)
  (Hx : is_u32 x) (Hb : is_u32 b) (Hk : 0 <= k <= 31) :
  RV32.RiscVBclr x b = Z.clearbit x (b mod 32) /\
  RV32.RiscVBset x b = Z.setbit x (b mod 32) /\
  RV32.RiscVBinv x b = Z.lxor x (2 ^ (b mod 32)) /\
  RV32.RiscVBext x b = Z.b2z (Z.testbit x (b mod 32)) /\
  RV32.RiscVBext (RV32.RiscVBset x k) k = 1 /\
  RV32.RiscVBclr (RV32.RiscVBset x k) k = RV32.RiscVBclr x k.
Proof.
  assert (Hmod : k mod 32 = k) by (apply Z.mod_small; lia).
  assert (Hset : is_u32 (RV32.RiscVBset x k)).
  { rewrite RiscVBset_setbit, Hmod. apply u32_of_bits.
    - rewrite Z.setbit_spec'. apply Z.lor_nonneg. destruct Hx. split; lia.
    - intros n Hn. rewrite Z.setbit_eqb by lia.
      rewrite is_u32_high_bits by (assumption || lia).
      destruct (Z.eqb_spec k n); [lia | reflexivity]. }
  split; [apply RiscVBclr_clearbit, Hx|].
  split; [apply RiscVBset_setbit|].
  split; [apply RiscVBinv_lxor|].
  split; [apply RiscVBext_testbit|].
  split.
  - rewrite RiscVBext_testbit, RiscVBset_setbit, Hmod.
    rewrite Z.setbit_eq by lia. reflexivity.
  - rewrite !RiscVBclr_clearbit by assumption.
    rewrite RiscVBset_setbit, Hmod.
    apply Z.bits_inj'. intros n Hn.
    rewrite !Z.clearbit_eqb, Z.setbit_eqb by lia.
    destruct (Z.eqb_spec k n); simpl.
    + rewrite !andb_false_r. reflexivity.
    + reflexivity.
Qed.

Lemma single_bit_ops_witness :
  RV32.RiscVBclr 0xF0 37 = Z.clearbit 0xF0 (37 mod 32) /\
  RV32.RiscVBset 0xF0 37 = Z.setbit 0xF0 (37 mod 32) /\
  RV32.RiscVBinv 0xF0 37 = Z.lxor 0xF0 (2 ^ (37 mod 32)) /\
  RV32.RiscVBext 0xF0 37 = Z.b2z (Z.testbit 0xF0 (37 mod 32)) /\
  RV32.RiscVBext (RV32.RiscVBset 0xF0 3) 3 = 1 /\
  RV32.RiscVBclr (RV32.RiscVBset 0xF0 3) 3 = RV32.RiscVBclr 0xF0 3.
Proof.
  apply (single_bit_ops 0xF0 37 3); unfold is_u32; lia.
Defined.

(** ** Counting bits *)

Lemma clz_powers_of_two :
  Forall (fun k => RV32.RiscVClz (shl32 1 k) = 31 - k) (seqZ 0 32).
Proof. apply (bool_decide_unpack _). vm_compute. exact I. Qed.

(** C8: over 32 bits, [clz(0) + ctz(0) = 64], [clz(1 << k) = 31 - k] for
    every [k] in [0, 31], and [cpop] of the all-ones word is 32. *)
Theorem count_identities (k : Z) (Hk : 0 <= k <= 31) :
  RV32.RiscVClz 0 + RV32.RiscVCtz 0 = 64 /\
  RV32.RiscVClz (shl32 1 k) = 31 - k /\
  RV32.RiscVCpop (not32 0) = 32.
Proof.
  split; [reflexivity|]. split; [|reflexivity].
  pose proof clz_powers_of_two as Hall.
  rewrite Forall_seqZ in Hall. apply Hall. lia.
Qed.

Lemma count_identities_witness :
  RV32.RiscVClz 0 + RV32.RiscVCtz 0 = 64 /\
  RV32.RiscVClz (shl32 1 31) = 31 - 31 /\
  RV32.RiscVCpop (not32 0) = 32.
Proof. apply (count_identities 31). lia. Defined.

(** ** Byte reversal *)

Lemma land_255_testbit (v n : Z) :
  0 <= n -> Z.testbit (Z.land v 255) n = (n <? 8) && Z.testbit v n.
Proof.
  intros Hn. change 255 with (Z.ones 8).
  rewrite Z.land_ones, Z.testbit_mod_pow2 by lia. reflexivity.
Qed.

Lemma RiscVRev8_unfold (a : Z) :
  RV32.RiscVRev8 a =
  Z.lor (shl32 (Z.lor (shl32 (Z.lor (shl32 (Z.lor (shl32 0 8)
    (Z.land a 255)) 8)
    (Z.land (shr32 a 8) 255)) 8)
    (Z.land (shr32 (shr32 a 8) 8) 255)) 8)
    (Z.land (shr32 (shr32 (shr32 a 8) 8) 8) 255).
Proof. reflexivity. Qed.

Ltac bits_norm :=
  repeat first
    [ rewrite Z.lor_spec
    | rewrite Z.testbit_0_l
    | rewrite (Z.testbit_neg_r _ _) by lia
    | rewrite shl32_testbit by lia
    | rewrite land_255_testbit by lia
    | rewrite shr32_testbit by lia ].

Ltac cmp_norm :=
  repeat match goal with
         | |- context [?x <? ?y] => destruct (Z.ltb_spec x y); try lia
         end.

Lemma RiscVRev8_testbit (a n : Z) :
  0 <= n ->
  Z.testbit (RV32.RiscVRev8 a) n =
  (n <? 32) && Z.testbit a (8 * (3 - n / 8) + n mod 8).
Proof.
  intros Hn. rewrite RiscVRev8_unfold.
  assert (Hcase : n < 8 \/ 8 <= n < 16 \/ 16 <= n < 24 \/ 24 <= n < 32 \/ 32 <= n)
    by lia.
  destruct Hcase as [H|[H|[H|[H|H]]]]; bits_norm; cmp_norm; simpl;
    rewrite ?orb_false_r, ?andb_false_r; simpl.
  all: try reflexivity.
  all: f_equal; Z.div_mod_to_equations; lia.
Qed.

Lemma RiscVRev8_is_u32 (a : Z) : is_u32 (RV32.RiscVRev8 a).
Proof.
  apply u32_of_bits.
  - rewrite RiscVRev8_unfold. apply Z.lor_nonneg. split.
    + apply wrap32_is_u32.
    + apply Z.land_nonneg. right. lia.
  - intros n Hn. rewrite RiscVRev8_testbit by lia.
    destruct (Z.ltb_spec n 32); [lia | reflexivity].
Qed.

Lemma byte_of_testbit (v k n : Z) :
  0 <= k -> 0 <= n ->
  Z.testbit (Ref.byte_of v k) n = (n <? 8) && Z.testbit v (n + 8 * k).
Proof.
  intros Hk Hn. unfold Ref.byte_of, Ref.bits.
  replace (8 * k + 7 - 8 * k + 1) with 8 by lia.
  rewrite Z.testbit_mod_pow2, Z.shiftr_spec by lia. reflexivity.
Qed.

(** C6: [rev8] reverses the byte order of a 32-bit word (byte [k] of the
    result is byte [3 - k] of the operand), and it is an involution:
    [rev8(rev8(x)) = x]. *)
Theorem rev8_reverses_bytes (x k : Z) (Hx : is_u32 x) (Hk : 0 <= k <= 3) :
  Ref.byte_of (RV32.RiscVRev8 x) k = Ref.byte_of x (3 - k) /\
  RV32.RiscVRev8 (RV32.RiscVRev8 x) = x.
Proof.
  split.
  - apply Z.bits_inj'. intros n Hn.
    rewrite !byte_of_testbit, RiscVRev8_testbit by lia.
    destruct (Z.ltb_spec n 8) as [Hlt|Hge]; [|reflexivity].
    destruct (Z.ltb_spec (n + 8 * k) 32); [|lia]. simpl.
    f_equal. Z.div_mod_to_equations. lia.
  - apply u32_bits_eq; [apply RiscVRev8_is_u32 | exact Hx |].
    intros n Hn. rewrite !RiscVRev8_testbit by (Z.div_mod_to_equations; lia).
    destruct (Z.ltb_spec n 32); [|lia].
    destruct (Z.ltb_spec (8 * (3 - n / 8) + n mod 8) 32);
      [|Z.div_mod_to_equations; lia].
    simpl. f_equal. Z.div_mod_to_equations. lia.
Qed.

Lemma rev8_reverses_bytes_witness :
  Ref.byte_of (RV32.RiscVRev8 0x11223344) 1 = Ref.byte_of 0x11223344 (3 - 1) /\
  RV32.RiscVRev8 (RV32.RiscVRev8 0x11223344) = 0x11223344.
Proof. apply (rev8_reverses_bytes 0x11223344 1); unfold is_u32; lia. Defined.

(** ** Loops *)

Lemma for_loop_split {A} (lo mid hi : Z) (body : A -> Z -> A) (init : A) :
  lo <= mid <= hi ->
  for_loop lo hi body init = for_loop mid hi body (for_loop lo mid body init).
Proof.
  intros Hm. unfold for_loop.
  replace (hi - lo) with ((mid - lo) + (hi - mid)) by lia.
  rewrite seqZ_app, fold_left_app by lia.
  replace (lo + (mid - lo)) with mid by lia. reflexivity.
Qed.

Lemma for_loop_single {A} (lo : Z) (body : A -> Z -> A) (init : A) :
  for_loop lo (lo + 1) body init = body init lo.
Proof.
  unfold for_loop. replace (lo + 1 - lo) with 1 by lia.
  rewrite seqZ_cons, seqZ_nil by lia. reflexivity.
Qed.

Lemma xor_fold_false (f : Z -> bool) (l : list Z) (acc : bool) :
  (forall i, i ∈ l -> f i = false) ->
  fold_left (fun acc i => xorb acc (f i)) l acc = acc.
Proof.
  revert acc. induction l as [|i l IH]; intros acc Hf; simpl.
  - reflexivity.
  - rewrite Hf by apply list_elem_of_here. rewrite xorb_false_r.
    apply IH. intros j Hj. apply Hf. apply list_elem_of_further, Hj.
Qed.

Lemma xor_fold_ext (f g : Z -> bool) (l : list Z) (acc : bool) :
  (forall i, i ∈ l -> f i = g i) ->
  fold_left (fun acc i => xorb acc (f i)) l acc =
  fold_left (fun acc i => xorb acc (g i)) l acc.
Proof.
  revert acc. induction l as [|i l IH]; intros acc Hfg; simpl.
  - reflexivity.
  - rewrite Hfg by apply list_elem_of_here.
    apply IH. intros j Hj. apply Hfg. apply list_elem_of_further, Hj.
Qed.

Lemma xor_range_ext (f g : Z -> bool) (lo hi : Z) :
  (forall i, lo <= i < hi -> f i = g i) ->
  Ref.xor_range f lo hi = Ref.xor_range g lo hi.
Proof.
  intros Hfg. apply xor_fold_ext. intros i Hi.
  apply elem_of_seqZ in Hi. apply Hfg. lia.
Qed.

Lemma xor_range_all_false (f : Z -> bool) (lo hi : Z) :
  (forall i, lo <= i < hi -> f i = false) -> Ref.xor_range f lo hi = false.
Proof.
  intros Hf. apply xor_fold_false. intros i Hi.
  apply elem_of_seqZ in Hi. apply Hf. lia.
Qed.

(** Terms that vanish outside [lo', hi') can be dropped from the range. *)
Lemma xor_range_restrict (f : Z -> bool) (lo lo' hi' hi : Z) :
  lo <= lo' -> lo' <= hi' -> hi' <= hi ->
  (forall i, lo <= i < hi -> ~ (lo' <= i < hi') -> f i = false) ->
  Ref.xor_range f lo hi = Ref.xor_range f lo' hi'.
Proof.
  intros H1 H2 H3 Hf. unfold Ref.xor_range.
  rewrite (for_loop_split lo lo' hi) by lia.
  rewrite (for_loop_split lo' hi' hi) by lia.
  fold (Ref.xor_range f lo lo').
  rewrite xor_range_all_false by (intros i Hi; apply Hf; lia).
  unfold for_loop at 1. apply xor_fold_false.
  intros i Hi. apply elem_of_seqZ in Hi. apply Hf; lia.
Qed.

Lemma xor_range_last (f : Z -> bool) (lo hi : Z) :
  lo <= hi ->
  Ref.xor_range f lo (hi + 1) = xorb (Ref.xor_range f lo hi) (f hi).
Proof.
  intros Hle. unfold Ref.xor_range.
  rewrite (for_loop_split lo hi (hi + 1)) by lia.
  rewrite for_loop_single. reflexivity.
Qed.

(** ** Carry-less multiplication *)

Lemma operand_bit_set (b i : Z) :
  bool_decide (Z.land (shr32 b i) 1 <> 0) = Z.testbit b i.
Proof.
  rewrite land_1_testbit, shr32_testbit by lia.
  rewrite Z.add_0_l.
  destruct (Z.testbit b i); reflexivity.
Qed.

(** Bit [n] of the result of a loop that exclusive-ors [t i] into the
    result for every set bit [i] of [b]. *)
Lemma clmul_fold_testbit (b : Z) (t : Z -> Z) (l : list Z) (r0 n : Z) :
  Z.testbit
    (fold_left (fun result i =>
                  if decide (Z.land (shr32 b i) 1 <> 0)
                  then Z.lxor result (t i) else result) l r0) n =
  fold_left (fun acc i => xorb acc (Z.testbit b i && Z.testbit (t i) n))
    l (Z.testbit r0 n).
Proof.
  revert r0. induction l as [|i l IH]; intros r0; simpl.
  - reflexivity.
  - rewrite IH. f_equal. rewrite <- (operand_bit_set b i).
    destruct (decide (Z.land (shr32 b i) 1 <> 0)) as [Hset|Hclear].
    + rewrite bool_decide_eq_true_2 by exact Hset.
      rewrite Z.lxor_spec. reflexivity.
    + rewrite bool_decide_eq_false_2 by exact Hclear.
      simpl. rewrite xorb_false_r. reflexivity.
Qed.

Lemma clmul_loop_testbit (b : Z) (t : Z -> Z) (lo hi n : Z) :
  Z.testbit
    (for_loop lo hi (fun result i =>
                       if decide (Z.land (shr32 b i) 1 <> 0)
                       then Z.lxor result (t i) else result) 0) n =
  Ref.xor_range (fun i => Z.testbit b i && Z.testbit (t i) n) lo hi.
Proof.
  unfold for_loop at 1. rewrite clmul_fold_testbit, Z.testbit_0_l.
  reflexivity.
Qed.

Lemma Z_of_bits_fold_testbit (f : Z -> bool) (l : list Z) (acc n : Z) :
  0 <= n -> (forall m, m ∈ l -> 0 <= m) ->
  Z.testbit
    (fold_left (fun acc m => Z.lor acc (if f m then 2 ^ m else 0)) l acc) n =
  Z.testbit acc n || (bool_decide (n ∈ l) && f n).
Proof.
  intros Hn. revert acc.
  induction l as [|m l IH]; intros acc Hl; cbn [fold_left].
  - rewrite bool_decide_eq_false_2 by apply not_elem_of_nil.
    rewrite orb_false_r. reflexivity.
  - rewrite IH by (intros k Hk; apply Hl, list_elem_of_further, Hk).
    rewrite Z.lor_spec.
    assert (Hm : 0 <= m) by apply Hl, list_elem_of_here.
    destruct (decide (n = m)) as [->|Hne].
    + rewrite (bool_decide_eq_true_2 (m ∈ m :: l)) by apply list_elem_of_here.
      destruct (f m); simpl.
      * rewrite Z.pow2_bits_eqb, Z.eqb_refl by lia.
        rewrite orb_true_r. reflexivity.
      * rewrite Z.testbit_0_l, andb_false_r, !orb_false_r. reflexivity.
    + assert (Hbit : Z.testbit (if f m then 2 ^ m else 0) n = false).
      { destruct (f m); [|apply Z.testbit_0_l].
        rewrite Z.pow2_bits_eqb by lia. apply Z.eqb_neq. lia. }
      rewrite Hbit, orb_false_r. f_equal. f_equal.
      apply bool_decide_ext. rewrite elem_of_cons. intuition congruence.
Qed.

Lemma Z_of_bits_testbit (width : Z) (f : Z -> bool) (n : Z) :
  0 <= n -> Z.testbit (Ref.Z_of_bits width f) n = (n <? width) && f n.
Proof.
  intros Hn. unfold Ref.Z_of_bits, for_loop.
  rewrite Z_of_bits_fold_testbit.
  - rewrite Z.testbit_0_l. simpl. f_equal.
    destruct (Z.ltb_spec n width).
    + apply bool_decide_eq_true_2, elem_of_seqZ. lia.
    + apply bool_decide_eq_false_2. rewrite elem_of_seqZ. lia.
  - exact Hn.
  - intros m Hm. apply elem_of_seqZ in Hm. lia.
Qed.

Lemma clprod_testbit (a b n : Z) :
  0 <= n ->
  Z.testbit (Ref.clprod a b) n = (n <? 64) && Ref.clprod_bit a b n.
Proof. intros Hn. apply Z_of_bits_testbit, Hn. Qed.

Lemma bits_testbit (v hi lo n : Z) :
  0 <= lo <= hi + 1 -> 0 <= n ->
  Z.testbit (Ref.bits v hi lo) n = (n <? hi - lo + 1) && Z.testbit v (n + lo).
Proof.
  intros Hr Hn. unfold Ref.bits.
  rewrite Z.testbit_mod_pow2, Z.shiftr_spec by lia. reflexivity.
Qed.

Lemma RiscVClmul_testbit (a b n : Z) :
  0 <= n ->
  Z.testbit (RV32.RiscVClmul a b) n = (n <? 32) && Ref.clprod_bit a b n.
Proof.
  intros Hn. unfold RV32.RiscVClmul, kXlen. rewrite clmul_loop_testbit.
  destruct (Z.ltb_spec n 32) as [Hlt|Hge]; simpl.
  - unfold Ref.clprod_bit.
    rewrite (xor_range_restrict _ 0 0 (n + 1) 32) by
      (try lia; intros i Hi Hout; rewrite shl32_testbit by lia;
       rewrite (Z.testbit_neg_r a (n - i)) by lia;
       rewrite !andb_false_r; reflexivity).
    apply xor_range_ext. intros i Hi. rewrite shl32_testbit by lia.
    destruct (Z.ltb_spec n 32); [reflexivity | lia].
  - apply xor_range_all_false. intros i Hi. rewrite shl32_testbit by lia.
    destruct (Z.ltb_spec n 32); [lia|]. apply andb_false_r.
Qed.

Lemma RiscVClmulh_testbit (a b n : Z) :
  is_u32 a -> is_u32 b -> 0 <= n ->
  Z.testbit (RV32.RiscVClmulh a b) n =
  (n <? 32) && Ref.clprod_bit a b (n + 32).
Proof.
  intros Ha Hb Hn. unfold RV32.RiscVClmulh, kXlen.
  rewrite clmul_loop_testbit.
  destruct (Z.ltb_spec n 32) as [Hlt|Hge]; simpl.
  - unfold Ref.clprod_bit.
    rewrite (xor_range_restrict _ 0 1 32 (n + 32 + 1)).
    + apply xor_range_ext. intros i Hi. rewrite shr32_testbit by lia.
      do 2 f_equal. lia.
    + lia.
    + lia.
    + lia.
    + intros j Hj Hout. destruct (decide (j = 0)) as [->|Hnz].
      * rewrite (is_u32_high_bits a) by (assumption || lia).
        apply andb_false_r.
      * rewrite (is_u32_high_bits b) by (assumption || lia). reflexivity.
  - apply xor_range_all_false. intros i Hi. rewrite shr32_testbit by lia.
    rewrite (is_u32_high_bits a) by (assumption || lia). apply andb_false_r.
Qed.

(** The loop of [clmulr] stops at [i = kXlen - 2]: against bit [n + 31] of
    the product, the term of operand bit 31 is missing. *)
Lemma RiscVClmulr_testbit (a b n : Z) :
  is_u32 a -> is_u32 b -> 0 <= n ->
  Z.testbit (RV32.RiscVClmulr a b) n =
  (n <? 32) &&
  xorb (Ref.clprod_bit a b (n + 31)) (Z.testbit b 31 && Z.testbit a n).
Proof.
  intros Ha Hb Hn. unfold RV32.RiscVClmulr, kXlen.
  rewrite clmul_loop_testbit. change (32 - 1) with 31.
  destruct (Z.ltb_spec n 32) as [Hlt|Hge]; simpl.
  - unfold Ref.clprod_bit.
    rewrite (xor_range_restrict _ 0 0 (31 + 1) (n + 31 + 1)) by
      (try lia; intros j Hj Hout;
       rewrite (is_u32_high_bits b) by (assumption || lia); reflexivity).
    rewrite xor_range_last by lia.
    replace (n + 31 - 31) with n by lia.
    rewrite xorb_assoc, xorb_nilpotent, xorb_false_r.
    apply xor_range_ext. intros i Hi. rewrite shr32_testbit by lia.
    do 2 f_equal. lia.
  - apply xor_range_all_false. intros i Hi. rewrite shr32_testbit by lia.
    rewrite (is_u32_high_bits a) by (assumption || lia). apply andb_false_r.
Qed.

(** C4: [clmul] returns the low 32 bits of the carry-less product of its
    operands; in particular [clmul(0xFFFFFFFF, 0xFFFFFFFF) = 0x55555555]. *)
Theorem clmul_low_bits (a b : Z) (Ha : is_u32 a) (Hb : is_u32 b) :
  RV32.RiscVClmul a b = Ref.bits (Ref.clprod a b) 31 0 /\
  RV32.RiscVClmul 0xFFFFFFFF 0xFFFFFFFF = 0x55555555.
Proof.
  split; [|vm_compute; reflexivity].
  apply Z.bits_inj'. intros n Hn.
  rewrite RiscVClmul_testbit, bits_testbit, clprod_testbit by lia.
  rewrite Z.add_0_r. change (31 - 0 + 1) with 32.
  destruct (Z.ltb_spec n 32); [|reflexivity].
  destruct (Z.ltb_spec n 64); [reflexivity | lia].
Qed.

Lemma clmul_low_bits_witness :
  RV32.RiscVClmul 0xFFFFFFFF 0xFFFFFFFF =
  Ref.bits (Ref.clprod 0xFFFFFFFF 0xFFFFFFFF) 31 0 /\
  RV32.RiscVClmul 0xFFFFFFFF 0xFFFFFFFF = 0x55555555.
Proof.
  apply (clmul_low_bits 0xFFFFFFFF 0xFFFFFFFF); unfold is_u32; lia.
Defined.

(** [clmulh] returns bits [63:32] of the carry-less product. *)
Lemma clmulh_high_bits (a b : Z) :
  is_u32 a -> is_u32 b ->
  RV32.RiscVClmulh a b = Ref.bits (Ref.clprod a b) 63 32.
Proof.
  intros Ha Hb. apply Z.bits_inj'. intros n Hn.
  rewrite RiscVClmulh_testbit, bits_testbit, clprod_testbit by (lia || assumption).
  change (63 - 32 + 1) with 32.
  destruct (Z.ltb_spec n 32); [|reflexivity].
  destruct (Z.ltb_spec (n + 32) 64); [reflexivity | lia].
Qed.

(** [clmulr] returns bits [62:31] of the carry-less product when bit 31 of
    its second operand is clear. *)
Lemma clmulr_bits_small_operand (a b : Z) :
  is_u32 a -> 0 <= b < 2 ^ 31 ->
  RV32.RiscVClmulr a b = Ref.bits (Ref.clprod a b) 62 31.
Proof.
  intros Ha Hb.
  assert (Hb32 : is_u32 b) by (unfold is_u32; lia).
  assert (Hb31 : Z.testbit b 31 = false).
  { rewrite <- (Z.mod_small b (2 ^ 31)) by lia.
    apply Z.mod_pow2_bits_high. lia. }
  apply Z.bits_inj'. intros n Hn.
  rewrite RiscVClmulr_testbit, bits_testbit, clprod_testbit by (lia || assumption).
  rewrite Hb31. simpl. rewrite xorb_false_r.
  change (62 - 31 + 1) with 32.
  destruct (Z.ltb_spec n 32); [|reflexivity].
  destruct (Z.ltb_spec (n + 31) 64); [reflexivity | lia].
Qed.

(** The carry-less product of two 32-bit operands has degree at most 62. *)
Lemma clprod_bit_high (a b n : Z) :
  is_u32 a -> is_u32 b -> 63 <= n -> Ref.clprod_bit a b n = false.
Proof.
  intros Ha Hb Hn. apply xor_range_all_false. intros j Hj.
  destruct (decide (j < 32)).
  - rewrite (is_u32_high_bits a) by (assumption || lia). apply andb_false_r.
  - rewrite (is_u32_high_bits b) by (assumption || lia). reflexivity.
Qed.

(** With bit 31 of the second operand clear, [clmulh] is [clmulr] shifted
    right by one. *)
Lemma clmulh_clmulr_small_operand (a b : Z) :
  is_u32 a -> 0 <= b < 2 ^ 31 ->
  RV32.RiscVClmulh a b = Z.shiftr (RV32.RiscVClmulr a b) 1.
Proof.
  intros Ha Hb.
  assert (Hb32 : is_u32 b) by (unfold is_u32; lia).
  rewrite clmulh_high_bits, clmulr_bits_small_operand by assumption.
  apply Z.bits_inj'. intros n Hn.
  rewrite Z.shiftr_spec, !bits_testbit, !clprod_testbit by lia.
  change (63 - 32 + 1) with 32. change (62 - 31 + 1) with 32.
  replace (n + 1 + 31) with (n + 32) by lia.
  destruct (Z.ltb_spec n 32), (Z.ltb_spec (n + 1) 32),
    (Z.ltb_spec (n + 32) 64); try lia; try reflexivity.
  rewrite clprod_bit_high by (assumption || lia). reflexivity.
Qed.

(** C5: [clmulh(a, b)] is bits [63:32] of the carry-less product
    ([clmulh_high_bits]), but [clmulr(a, b)] is not always bits [62:31] of
    it: for [a = 1], [b = 0x80000000] the product is [2^31], whose bits
    [62:31] are 1, and the code returns 0. *)
Theorem clmulr_drops_operand_bit_31 :
  RV32.RiscVClmulr 1 0x80000000 = 0 /\
  Ref.bits (Ref.clprod 1 0x80000000) 62 31 = 1 /\
  RV32.RiscVClmulh 1 0x80000000 = Ref.bits (Ref.clprod 1 0x80000000) 63 32.
Proof. repeat split; vm_compute; reflexivity. Qed.

(** Read as its comment has it, a reverse carry-less multiplication (the
    bit reversal of [clmul] on the reversed operands), [clmulr(1,
    0x80000000)] is 1 as well. *)
Example clmulr_as_reversed_clmul :
  Ref.bitrev32 (RV32.RiscVClmul (Ref.bitrev32 1) (Ref.bitrev32 0x80000000)) = 1.
Proof. vm_compute. reflexivity. Qed.

(** C10: [clmulh(a, b) = clmulr(a, b) >> 1] fails on the code for
    [a = 2], [b = 0x80000000]: [clmulh] returns 1 (the product is [2^32])
    and [clmulr] returns 0. *)
Theorem clmulh_not_half_of_clmulr :
  RV32.RiscVClmulh 2 0x80000000 = 1 /\
  Z.shiftr (RV32.RiscVClmulr 2 0x80000000) 1 = 0 /\
  Ref.bits (Ref.clprod 2 0x80000000) 62 31 = 2.
Proof. repeat split; vm_compute; reflexivity. Qed.

(** ** Rotations *)

(** For a count in [1, 31] both shifts are defined and the result is the
    rotated word. *)
Lemma RiscVrol_in_range (a b : Z) :
  is_u32 a -> 1 <= b <= 31 -> RV32.RiscVrol a b = Some (Ref.rotl32 a b).
Proof.
  intros Ha Hb. unfold RV32.RiscVrol, shl32_checked, shr32_checked, sub32.
  assert (Hsub : wrap32 (32 - b) = 32 - b)
    by (unfold wrap32; apply Z.mod_small; lia).
  rewrite Hsub, !decide_True by lia. simpl. f_equal.
  apply Z.bits_inj'. intros n Hn. unfold Ref.rotl32.
  rewrite wrap32_testbit, !Z.lor_spec, shl32_testbit, shr32_testbit by lia.
  rewrite !Z.shiftl_spec, Z.shiftr_spec by lia.
  destruct (Z.ltb_spec n 32); [reflexivity|]. simpl.
  apply is_u32_high_bits; [assumption | lia].
Qed.

Lemma RiscVror_in_range (a b : Z) :
  is_u32 a -> 1 <= b <= 31 -> RV32.RiscVror a b = Some (Ref.rotr32 a b).
Proof.
  intros Ha Hb. unfold RV32.RiscVror, shl32_checked, shr32_checked, sub32.
  assert (Hsub : wrap32 (32 - b) = 32 - b)
    by (unfold wrap32; apply Z.mod_small; lia).
  rewrite Hsub, !decide_True by lia. simpl. f_equal.
  apply Z.bits_inj'. intros n Hn. unfold Ref.rotr32.
  rewrite wrap32_testbit, !Z.lor_spec, shl32_testbit, shr32_testbit by lia.
  rewrite !Z.shiftl_spec, Z.shiftr_spec by lia.
  destruct (Z.ltb_spec n 32); [reflexivity|]. simpl.
  rewrite orb_false_r. apply is_u32_high_bits; [assumption | lia].
Qed.

(** C2: the code does not return [x] for [rol(x, 0)] and [ror(x, 0)]: with
    a zero count it shifts by [32 - 0 = 32], which is undefined on a 32-bit
    operand, and a count of 32 is not reduced modulo 32 either. *)
Theorem rotate_by_zero_is_undefined (x : Z) :
  RV32.RiscVrol x 0 = None /\
  RV32.RiscVror x 0 = None /\
  RV32.RiscVrol x 32 = None /\
  RV32.RiscVror x 32 = None.
Proof. repeat split; reflexivity. Qed.

(** ** Stack pointer initialization *)

(** Without a GNU_STACK segment the code computes what the specification
    describes. *)
Lemma sp_initial_value_without_gnu_stack
  (flags : Sim.Flags) (loader : Sim.ElfProgramLoader) :
  Sim.GetStackSize loader = None ->
  Sim.sp_initial_value flags loader = Ref.initial_sp flags loader.
Proof.
  intros Hnone.
  unfold Sim.sp_initial_value, Ref.initial_sp, Ref.stack_base, Ref.stack_size.
  rewrite Hnone.
  destruct (Sim.GetSymbol loader Sim.kStackEndSymbolName) as [[addr sz]|],
    (Sim.FLAGS_stack_end flags),
    (Sim.GetSymbol loader Sim.kStackSizeSymbolName) as [[addr' sz']|],
    (Sim.FLAGS_stack_size flags); reflexivity.
Qed.

(** With a GNU_STACK segment its size replaces the stack base. *)
Lemma sp_initial_value_with_gnu_stack
  (flags : Sim.Flags) (loader : Sim.ElfProgramLoader) (base segment : Z) :
  Ref.stack_base flags loader = Some base ->
  Sim.GetStackSize loader = Some segment ->
  Sim.sp_initial_value flags loader =
  Some (wrap64 (segment +
                match Sim.FLAGS_stack_size flags with
                | Some v => v
                | None =>
                    match Sim.GetSymbol loader Sim.kStackSizeSymbolName with
                    | Some res => res.1
                    | None => 32 * 1024
                    end
                end)).
Proof.
  unfold Sim.sp_initial_value, Ref.stack_base. intros Hbase Hseg.
  rewrite Hseg.
  destruct (Sim.GetSymbol loader Sim.kStackEndSymbolName) as [[addr sz]|],
    (Sim.FLAGS_stack_end flags),
    (Sim.GetSymbol loader Sim.kStackSizeSymbolName) as [[addr' sz']|],
    (Sim.FLAGS_stack_size flags); try discriminate; reflexivity.
Qed.

(** The value reaches the register: the trace of [main] on the executable
    with a GNU_STACK segment, both stack flags empty. *)
Example main_writes_segment_size_to_sp :
  Sim.main flags_unset ["rv32gv_sim"; "prog.elf"] (env_ok elf_gnu_stack) =
  ([Sim.NewMemory;
    Sim.CallLoadProgram "prog.elf";
    Sim.NewState;
    Sim.NewDecoder;
    Sim.NewTop;
    Sim.WriteRegister "pc" 0x10000;
    Sim.WriteRegister "sp" 0x18000;
    Sim.AddCounter;
    Sim.InstallSigintHandler;
    Sim.Cerr "Starting simulation";
    Sim.TopRun;
    Sim.TopWait;
    Sim.Cerr "Simulation done";
    Sim.ExportCounters;
    Sim.WriteProto;
    Sim.ClearAllSwBreakpoints],
   Sim.Return 0).
Proof. vm_compute. reflexivity. Qed.

(** C1: for the executable with [__stack_end = 0x200000] and
    [__stack_size = 0x8000], the specification gives [sp = 0x208000].  The
    code writes [0x18000] when a GNU_STACK segment of size [0x10000] is
    present (both stack flags empty), and [0x8000] when no flag is given on
    the command line, because the flag defaults are engaged; it writes
    [0x208000] only with both flags empty and no GNU_STACK segment. *)
Theorem stack_pointer_initialization :
  Ref.initial_sp flags_unset elf_gnu_stack = Some 0x208000 /\
  Sim.sp_initial_value flags_unset elf_gnu_stack = Some 0x18000 /\
  Sim.sp_initial_value Sim.default_flags elf_plain = Some 0x8000 /\
  Sim.sp_initial_value flags_unset elf_plain = Some 0x208000.
Proof. repeat split; vm_compute; reflexivity. Qed.

(** ** Command line errors *)

(** More than one input file ends [main] before anything is constructed. *)
Lemma main_rejects_two_inputs (env : Sim.Env) :
  Sim.main Sim.default_flags ["rv32gv_sim"; "a.elf"; "b.elf"] env =
  ([Sim.Cerr "Only a single input file allowed"], Sim.Return (-1)).
Proof. reflexivity. Qed.

(** C3: with both semihosting flags [main] reports the error and carries
    on: it constructs the core, runs it and returns 0. *)
Theorem both_semihosting_flags_still_run :
  Sim.main flags_both_semihost ["rv32gv_sim"; "prog.elf"] (env_ok elf_plain) =
  ([Sim.LogError "Cannot specify both htif and arm semihosting";
    Sim.Cerr "Only one semihosting mechanism can be specified";
    Sim.NewMemory;
    Sim.CallLoadProgram "prog.elf";
    Sim.NewState;
    Sim.NewDecoder;
    Sim.NewTop;
    Sim.WriteRegister "pc" 0x10000;
    Sim.WriteRegister "sp" 0x8000;
    Sim.NewArmSemihost;
    Sim.AddCounter;
    Sim.InstallSigintHandler;
    Sim.Cerr "Starting simulation";
    Sim.TopRun;
    Sim.TopWait;
    Sim.Cerr "Simulation done";
    Sim.ExportCounters;
    Sim.WriteProto;
    Sim.ClearAllSwBreakpoints],
   Sim.Return 0).
Proof. vm_compute. reflexivity. Qed.

(** * Further properties of the semantic functions *)

(** ** Results fit the destination register *)

Lemma u32_of_high_bits (v : Z) :
  (forall n, 32 <= n -> Z.testbit v n = false) -> is_u32 v.
Proof.
  intros Hbits. apply u32_of_bits; [|exact Hbits].
  apply Z.bits_iff_nonneg_ex. exists 32. intros m Hm. apply Hbits. lia.
Qed.

(** Bitwise goals on 32-bit operands: compare bit [n] of both sides. *)
Ltac word_bits :=
  repeat first
    [ rewrite Z.land_spec
    | rewrite Z.lor_spec
    | rewrite Z.lxor_spec
    | rewrite Z.ldiff_spec
    | rewrite wrap32_testbit
    | rewrite not32_testbit by lia
    | rewrite shl32_testbit by lia
    | rewrite shr32_testbit by lia ].

Ltac split_all :=
  repeat match goal with |- _ /\ _ => split end.

Ltac high_bits :=
  repeat match goal with
         | H : is_u32 ?a |- context [Z.testbit ?a ?n] =>
             rewrite (is_u32_high_bits a n H) by lia
         end.

(** X1: applied to 32-bit operands, the bitwise, single-bit, byte and
    carry-less operations return a 32-bit value. *)
Theorem results_fit_register (a b : Z) (Ha : is_u32 a) (Hb : is_u32 b) :
  is_u32 (RV32.RiscVAndn a b) /\ is_u32 (RV32.RiscVOrn a b) /\
  is_u32 (RV32.RiscVXnor a b) /\
  is_u32 (RV32.RiscVBclr a b) /\ is_u32 (RV32.RiscVBset a b) /\
  is_u32 (RV32.RiscVBinv a b) /\ is_u32 (RV32.RiscVBext a b) /\
  is_u32 (RV32.RiscVRev8 a) /\
  is_u32 (RV32.RiscVClmul a b) /\ is_u32 (RV32.RiscVClmulh a b) /\
  is_u32 (RV32.RiscVClmulr a b).
Proof.
  split_all; try (apply u32_of_high_bits; intros n Hn).
  - unfold RV32.RiscVAndn. word_bits. high_bits. reflexivity.
  - unfold RV32.RiscVOrn. word_bits. high_bits.
    destruct (Z.ltb_spec n 32); [lia | reflexivity].
  - unfold RV32.RiscVXnor. word_bits.
    destruct (Z.ltb_spec n 32); [lia | reflexivity].
  - unfold RV32.RiscVBclr. word_bits. high_bits. reflexivity.
  - unfold RV32.RiscVBset. word_bits. high_bits.
    destruct (Z.ltb_spec n 32); [lia | reflexivity].
  - unfold RV32.RiscVBinv. word_bits. high_bits.
    destruct (Z.ltb_spec n 32); [lia | reflexivity].
  - rewrite RiscVBext_testbit.
    destruct (Z.testbit a (b mod 32)); simpl; [|apply Z.testbit_0_l].
    change 1 with (2 ^ 0). rewrite Z.pow2_bits_eqb by lia.
    apply Z.eqb_neq. lia.
  - rewrite RiscVRev8_testbit by lia.
    destruct (Z.ltb_spec n 32); [lia | reflexivity].
  - rewrite RiscVClmul_testbit by lia.
    destruct (Z.ltb_spec n 32); [lia | reflexivity].
  - rewrite RiscVClmulh_testbit by (assumption || lia).
    destruct (Z.ltb_spec n 32); [lia | reflexivity].
  - rewrite RiscVClmulr_testbit by (assumption || lia).
    destruct (Z.ltb_spec n 32); [lia | reflexivity].
Qed.

Lemma results_fit_register_witness :
  is_u32 (RV32.RiscVAndn 0xF0F0 0xFF) /\ is_u32 (RV32.RiscVOrn 0xF0F0 0xFF) /\
  is_u32 (RV32.RiscVXnor 0xF0F0 0xFF) /\
  is_u32 (RV32.RiscVBclr 0xF0F0 0xFF) /\ is_u32 (RV32.RiscVBset 0xF0F0 0xFF) /\
  is_u32 (RV32.RiscVBinv 0xF0F0 0xFF) /\ is_u32 (RV32.RiscVBext 0xF0F0 0xFF) /\
  is_u32 (RV32.RiscVRev8 0xF0F0) /\
  is_u32 (RV32.RiscVClmul 0xF0F0 0xFF) /\ is_u32 (RV32.RiscVClmulh 0xF0F0 0xFF) /\
  is_u32 (RV32.RiscVClmulr 0xF0F0 0xFF).
Proof. apply (results_fit_register 0xF0F0 0xFF); unfold is_u32; lia. Defined.

(** ** Relations between the logical operations *)

(** X2: on 32-bit operands [orn(a, b) = ~andn(b, a)], [andn(a, b) =
    ~orn(b, a)], [xnor(a, b) = a ^ ~b] and [xnor] is commutative. *)
Theorem logic_ops_duality (a b : Z) (Ha : is_u32 a) (Hb : is_u32 b) :
  RV32.RiscVOrn a b = not32 (RV32.RiscVAndn b a) /\
  RV32.RiscVAndn a b = not32 (RV32.RiscVOrn b a) /\
  RV32.RiscVXnor a b = Z.lxor a (not32 b) /\
  RV32.RiscVXnor a b = RV32.RiscVXnor b a.
Proof.
  unfold RV32.RiscVOrn, RV32.RiscVAndn, RV32.RiscVXnor.
  split_all; apply Z.bits_inj'; intros n Hn; word_bits;
    destruct (Z.ltb_spec n 32); high_bits; simpl;
    destruct (Z.testbit a n), (Z.testbit b n); reflexivity.
Qed.

Lemma logic_ops_duality_witness :
  RV32.RiscVOrn 0xF0F0 0xFF = not32 (RV32.RiscVAndn 0xFF 0xF0F0) /\
  RV32.RiscVAndn 0xF0F0 0xFF = not32 (RV32.RiscVOrn 0xFF 0xF0F0) /\
  RV32.RiscVXnor 0xF0F0 0xFF = Z.lxor 0xF0F0 (not32 0xFF) /\
  RV32.RiscVXnor 0xF0F0 0xFF = RV32.RiscVXnor 0xFF 0xF0F0.
Proof. apply (logic_ops_duality 0xF0F0 0xFF); unfold is_u32; lia. Defined.

(** ** Composition of the single-bit operations *)

Lemma bit_mask_testbit (b n : Z) :
  0 <= n ->
  Z.testbit (shl32 1 (Z.land b 31)) n = (n =? b mod 32).
Proof.
  intros Hn. rewrite shl32_1 by apply bit_index_range.
  rewrite land_31_mod, Z.pow2_bits_eqb by (apply Z.mod_pos_bound; lia).
  apply Z.eqb_sym.
Qed.

(** X3: [binv] is an involution, it flips the bit that [bext] reads, and
    [bext] reads 0 after [bclr] on the same index. *)
Theorem bit_ops_round_trip (x b : Z) (Hx : is_u32 x) :
  RV32.RiscVBinv (RV32.RiscVBinv x b) b = x /\
  RV32.RiscVBext (RV32.RiscVBinv x b) b = 1 - RV32.RiscVBext x b /\
  RV32.RiscVBext (RV32.RiscVBclr x b) b = 0 /\
  RV32.RiscVBset (RV32.RiscVBset x b) b = RV32.RiscVBset x b /\
  RV32.RiscVBclr (RV32.RiscVBclr x b) b = RV32.RiscVBclr x b.
Proof.
  assert (Hidx : 0 <= b mod 32 < 32) by (apply Z.mod_pos_bound; lia).
  split_all.
  - unfold RV32.RiscVBinv. rewrite Z.lxor_assoc, Z.lxor_nilpotent.
    apply Z.lxor_0_r.
  - rewrite !RiscVBext_testbit. unfold RV32.RiscVBinv.
    rewrite Z.lxor_spec, bit_mask_testbit, Z.eqb_refl by lia.
    destruct (Z.testbit x (b mod 32)); reflexivity.
  - rewrite RiscVBext_testbit. unfold RV32.RiscVBclr.
    rewrite Z.land_spec, not32_testbit, bit_mask_testbit, Z.eqb_refl by lia.
    rewrite !andb_false_r. reflexivity.
  - unfold RV32.RiscVBset. rewrite <- Z.lor_assoc, Z.lor_diag. reflexivity.
  - unfold RV32.RiscVBclr. rewrite <- Z.land_assoc, Z.land_diag. reflexivity.
Qed.

Lemma bit_ops_round_trip_witness :
  RV32.RiscVBinv (RV32.RiscVBinv 0xF0F0 37) 37 = 0xF0F0 /\
  RV32.RiscVBext (RV32.RiscVBinv 0xF0F0 37) 37 = 1 - RV32.RiscVBext 0xF0F0 37 /\
  RV32.RiscVBext (RV32.RiscVBclr 0xF0F0 37) 37 = 0 /\
  RV32.RiscVBset (RV32.RiscVBset 0xF0F0 37) 37 = RV32.RiscVBset 0xF0F0 37 /\
  RV32.RiscVBclr (RV32.RiscVBclr 0xF0F0 37) 37 = RV32.RiscVBclr 0xF0F0 37.
Proof. apply (bit_ops_round_trip 0xF0F0 37); unfold is_u32; lia. Defined.

(** X4: [bset], [bclr] and [binv] change no bit other than the selected
    one: [bext] at an index that differs modulo 32 reads the same. *)
Theorem bit_ops_leave_other_bits (x b j : Z)
  (Hx : is_u32 x) (Hne : j mod 32 <> b mod 32) :
  RV32.RiscVBext (RV32.RiscVBset x b) j = RV32.RiscVBext x j /\
  RV32.RiscVBext (RV32.RiscVBclr x b) j = RV32.RiscVBext x j /\
  RV32.RiscVBext (RV32.RiscVBinv x b) j = RV32.RiscVBext x j.
Proof.
  assert (Hidx : 0 <= j mod 32 < 32) by (apply Z.mod_pos_bound; lia).
  assert (Hneq : (j mod 32 =? b mod 32) = false) by (apply Z.eqb_neq, Hne).
  rewrite !RiscVBext_testbit.
  unfold RV32.RiscVBset, RV32.RiscVBclr, RV32.RiscVBinv.
  rewrite Z.lor_spec, Z.land_spec, Z.lxor_spec, not32_testbit by lia.
  rewrite !bit_mask_testbit, Hneq by lia.
  destruct (Z.ltb_spec (j mod 32) 32); [|lia].
  rewrite orb_false_r, xorb_false_r. simpl. rewrite andb_true_r.
  split_all; reflexivity.
Qed.

Lemma bit_ops_leave_other_bits_witness :
  RV32.RiscVBext (RV32.RiscVBset 0xF0F0 37) 4 = RV32.RiscVBext 0xF0F0 4 /\
  RV32.RiscVBext (RV32.RiscVBclr 0xF0F0 37) 4 = RV32.RiscVBext 0xF0F0 4 /\
  RV32.RiscVBext (RV32.RiscVBinv 0xF0F0 37) 4 = RV32.RiscVBext 0xF0F0 4.
Proof.
  apply (bit_ops_leave_other_bits 0xF0F0 37 4); [unfold is_u32; lia|].
  vm_compute. discriminate.
Defined.

(** ** Add with shift, and the counts the shifts accept *)

(** X5: for a count below 32, [sh_add] returns [b + a * 2^shift] modulo
    [2^32]. *)
Theorem sh_add_value (shift a b : Z)
  (Ha : is_u32 a) (Hb : is_u32 b) (Hs : 0 <= shift < 32) :
  RV32.RiscVShAdd shift a b = Some ((b + a * 2 ^ shift) mod 2 ^ 32).
Proof.
  unfold RV32.RiscVShAdd, shl32_checked. rewrite decide_True by lia.
  simpl. f_equal. unfold shl32, wrap32.
  rewrite Z.shiftl_mul_pow2 by lia. apply Z.add_mod_idemp_r. lia.
Qed.

Lemma sh_add_value_witness :
  RV32.RiscVShAdd 3 0x20000001 7 = Some ((7 + 0x20000001 * 2 ^ 3) mod 2 ^ 32).
Proof. apply (sh_add_value 3 0x20000001 7); unfold is_u32; lia. Defined.

(** X6: the counts of [sh_add], [rol] and [ror] are used as they come:
    [sh_add] is undefined exactly for a count of 32 or more, and the
    rotations exactly for a count of 0 or of 32 or more. *)
Theorem unmasked_counts (a b : Z) (Hb : is_u32 b) :
  (RV32.RiscVShAdd b a a = None <-> 32 <= b) /\
  (RV32.RiscVrol a b = None <-> b = 0 \/ 32 <= b) /\
  (RV32.RiscVror a b = None <-> b = 0 \/ 32 <= b).
Proof.
  destruct Hb as [Hb0 Hb1].
  unfold RV32.RiscVShAdd, RV32.RiscVrol, RV32.RiscVror,
    shl32_checked, shr32_checked, sub32, wrap32.
  destruct (decide (0 <= b < 32)) as [Hin|Hout]; simpl.
  - destruct (decide (b = 0)) as [->|Hnz]; simpl.
    + split_all; split; intros H;
        first [discriminate H | reflexivity | lia | exfalso; lia].
    + rewrite (Z.mod_small (32 - b)) by lia.
      repeat (rewrite decide_True by lia; simpl).
      split_all; split; intros H;
        first [discriminate H | reflexivity | lia | exfalso; lia].
  - split_all; split; intros H;
      first [discriminate H | reflexivity | lia | exfalso; lia].
Qed.

Lemma unmasked_counts_witness :
  (RV32.RiscVShAdd 32 5 5 = None <-> 32 <= 32) /\
  (RV32.RiscVrol 5 32 = None <-> 32 = 0 \/ 32 <= 32) /\
  (RV32.RiscVror 5 32 = None <-> 32 = 0 \/ 32 <= 32).
Proof. apply (unmasked_counts 5 32). unfold is_u32. lia. Defined.

(** ** Maximum and minimum *)

Lemma as_signed_32_small (a : Z) :
  0 <= a < 2 ^ 31 -> as_signed 32 a = a.
Proof.
  intros Ha. unfold as_signed. rewrite Z.mod_small by lia.
  change (32 - 1) with 31. rewrite decide_True by lia. reflexivity.
Qed.

Lemma as_signed_32_large (a : Z) :
  2 ^ 31 <= a < 2 ^ 32 -> as_signed 32 a = a - 2 ^ 32.
Proof.
  intros Ha. unfold as_signed. rewrite Z.mod_small by lia.
  change (32 - 1) with 31. rewrite decide_False by lia. reflexivity.
Qed.

Lemma wrap32_small (v : Z) : is_u32 v -> wrap32 v = v.
Proof. intros Hv. apply Z.mod_small, Hv. Qed.

Lemma wrap32_negative (v : Z) :
  2 ^ 31 <= v < 2 ^ 32 -> wrap32 (v - 2 ^ 32) = v.
Proof.
  intros Hv. unfold wrap32.
  rewrite <- (Z.mod_small v (2 ^ 32)) at 2 by lia.
  replace (v - 2 ^ 32) with (v + (-1) * 2 ^ 32) by lia.
  apply Z.mod_add. lia.
Qed.

(** The operands of a signed comparison, by sign. *)
Ltac by_sign a Ha :=
  let H := fresh "Hsign" in
  destruct (decide (a < 2 ^ 31)) as [H|H];
  [ rewrite (as_signed_32_small a) by (unfold is_u32 in Ha; lia)
  | rewrite (as_signed_32_large a) by (unfold is_u32 in Ha; lia) ].

Ltac by_max_min :=
  repeat match goal with
         | |- context [Z.max ?x ?y] =>
             destruct (Z.max_spec x y) as [[? ->]|[? ->]]
         | |- context [Z.min ?x ?y] =>
             destruct (Z.min_spec x y) as [[? ->]|[? ->]]
         end;
  try (exfalso; unfold is_u32 in *; lia);
  rewrite ?wrap32_negative, ?wrap32_small by (unfold is_u32 in *; lia).

(** X7: the signed and unsigned maximum and minimum select among their
    operands: one of them is the maximum and the other the minimum, and the
    minimum is not above the maximum in the order of the instruction. *)
Theorem max_min_select (a b : Z) (Ha : is_u32 a) (Hb : is_u32 b) :
  (RV32.RiscVMax a b = a /\ RV32.RiscVMin a b = b \/
   RV32.RiscVMax a b = b /\ RV32.RiscVMin a b = a) /\
  as_signed 32 (RV32.RiscVMin a b) <= as_signed 32 (RV32.RiscVMax a b) /\
  (RV32.RiscVMaxu a b = a /\ RV32.RiscVMinu a b = b \/
   RV32.RiscVMaxu a b = b /\ RV32.RiscVMinu a b = a) /\
  RV32.RiscVMinu a b <= RV32.RiscVMaxu a b.
Proof.
  assert (Hsel :
    RV32.RiscVMax a b = a /\ RV32.RiscVMin a b = b /\
      as_signed 32 b <= as_signed 32 a \/
    RV32.RiscVMax a b = b /\ RV32.RiscVMin a b = a /\
      as_signed 32 a <= as_signed 32 b).
  { unfold RV32.RiscVMax, RV32.RiscVMin.
    by_sign a Ha; by_sign b Hb; by_max_min;
      first [ left; split_all; solve [reflexivity | lia]
            | right; split_all; solve [reflexivity | lia] ]. }
  unfold RV32.RiscVMaxu, RV32.RiscVMinu. split_all.
  - destruct Hsel as [(-> & -> & _)|(-> & -> & _)]; auto.
  - destruct Hsel as [(-> & -> & H)|(-> & -> & H)]; exact H.
  - destruct (Z.le_ge_cases a b);
      [right; rewrite Z.max_r, Z.min_l by lia
      | left; rewrite Z.max_l, Z.min_r by lia]; auto.
  - lia.
Qed.

Lemma max_min_select_witness :
  (RV32.RiscVMax 0xFFFFFFFF 1 = 0xFFFFFFFF /\ RV32.RiscVMin 0xFFFFFFFF 1 = 1 \/
   RV32.RiscVMax 0xFFFFFFFF 1 = 1 /\ RV32.RiscVMin 0xFFFFFFFF 1 = 0xFFFFFFFF) /\
  as_signed 32 (RV32.RiscVMin 0xFFFFFFFF 1) <=
    as_signed 32 (RV32.RiscVMax 0xFFFFFFFF 1) /\
  (RV32.RiscVMaxu 0xFFFFFFFF 1 = 0xFFFFFFFF /\ RV32.RiscVMinu 0xFFFFFFFF 1 = 1 \/
   RV32.RiscVMaxu 0xFFFFFFFF 1 = 1 /\ RV32.RiscVMinu 0xFFFFFFFF 1 = 0xFFFFFFFF) /\
  RV32.RiscVMinu 0xFFFFFFFF 1 <= RV32.RiscVMaxu 0xFFFFFFFF 1.
Proof. apply (max_min_select 0xFFFFFFFF 1); unfold is_u32; lia. Defined.

(** X8: signed and unsigned maximum agree when the operands have the same
    sign bit; when the sign bits differ the signed maximum is the unsigned
    minimum and the signed minimum the unsigned maximum. *)
Theorem signed_unsigned_max (a b : Z) (Ha : is_u32 a) (Hb : is_u32 b) :
  if decide ((a < 2 ^ 31) <-> (b < 2 ^ 31))
  then RV32.RiscVMax a b = RV32.RiscVMaxu a b /\
       RV32.RiscVMin a b = RV32.RiscVMinu a b
  else RV32.RiscVMax a b = RV32.RiscVMinu a b /\
       RV32.RiscVMin a b = RV32.RiscVMaxu a b.
Proof.
  unfold RV32.RiscVMax, RV32.RiscVMin, RV32.RiscVMaxu, RV32.RiscVMinu.
  destruct (decide ((a < 2 ^ 31) <-> (b < 2 ^ 31))) as [Hsame|Hdiff];
    by_sign a Ha; by_sign b Hb; try lia; by_max_min;
    split; solve [reflexivity | lia].
Qed.

Lemma signed_unsigned_max_witness :
  RV32.RiscVMax 0xFFFFFFFF 1 = RV32.RiscVMinu 0xFFFFFFFF 1 /\
  RV32.RiscVMin 0xFFFFFFFF 1 = RV32.RiscVMaxu 0xFFFFFFFF 1.
Proof.
  exact (signed_unsigned_max 0xFFFFFFFF 1
           ltac:(unfold is_u32; lia) ltac:(unfold is_u32; lia)).
Defined.

(** ** Sign and zero extension *)

Ltac by_cases_mod :=
  unfold RV32.RiscVSextB, RV32.RiscVSextH, RV32.RiscVZextH,
    as_signed, as_unsigned, wrap32;
  change (8 - 1) with 7; change (16 - 1) with 15; change (32 - 1) with 31;
  change (2 ^ 7) with 128; change (2 ^ 8) with 256;
  change (2 ^ 15) with 32768; change (2 ^ 16) with 65536;
  change (2 ^ 31) with 2147483648; change (2 ^ 32) with 4294967296;
  repeat case_decide; Z.div_mod_to_equations; lia.

(** X9: the register written by [sext_b] ([sext_h]) holds, read as a signed
    word, the value of the low byte (half word) of the operand read as a
    signed byte (half word); [zext_h] returns the low half word. *)
Theorem extension_values (x : Z) :
  as_signed 32 (RV32.RiscVSextB x) = as_signed 8 x /\
  as_signed 32 (RV32.RiscVSextH x) = as_signed 16 x /\
  RV32.RiscVZextH x = x mod 2 ^ 16.
Proof. split_all; by_cases_mod. Qed.

(** X10: extending twice changes nothing more: [sext_b] and [sext_h] are
    idempotent, [sext_h] after [sext_b] is [sext_b], and [zext_h] and
    [sext_h] each see only the low half word that the other leaves. *)
Theorem extension_composition (x : Z) :
  RV32.RiscVSextB (RV32.RiscVSextB x) = RV32.RiscVSextB x /\
  RV32.RiscVSextH (RV32.RiscVSextH x) = RV32.RiscVSextH x /\
  RV32.RiscVSextH (RV32.RiscVSextB x) = RV32.RiscVSextB x /\
  RV32.RiscVSextB (RV32.RiscVSextH x) = RV32.RiscVSextB x /\
  RV32.RiscVZextH (RV32.RiscVSextH x) = RV32.RiscVZextH x /\
  RV32.RiscVSextH (RV32.RiscVZextH x) = RV32.RiscVSextH x.
Proof. split_all; by_cases_mod. Qed.

(** ** Or-combine *)

Lemma RiscVOrcb_unfold (a : Z) :
  RV32.RiscVOrcb a =
  let r := if decide (Z.land a 255 <> 0) then Z.lor 0 255 else 0 in
  let r := if decide (Z.land a 65280 <> 0) then Z.lor r 65280 else r in
  let r := if decide (Z.land a 16711680 <> 0) then Z.lor r 16711680 else r in
  if decide (Z.land a 4278190080 <> 0) then Z.lor r 4278190080 else r.
Proof. reflexivity. Qed.

Lemma byte_mask_land (a k : Z) :
  0 <= k ->
  Z.land a (Z.shiftl 255 (8 * k)) = Z.shiftl (Ref.byte_of a k) (8 * k).
Proof.
  intros Hk. apply Z.bits_inj'. intros n Hn.
  rewrite Z.land_spec, !Z.shiftl_spec by lia.
  destruct (decide (n < 8 * k)) as [Hlow|Hhigh].
  - rewrite !(Z.testbit_neg_r _ (n - 8 * k)) by lia. apply andb_false_r.
  - rewrite byte_of_testbit by lia. change 255 with (Z.ones 8).
    rewrite Z.testbit_ones_nonneg by lia.
    replace (n - 8 * k + 8 * k) with n by lia. apply andb_comm.
Qed.

Lemma byte_mask_zero (a k : Z) :
  0 <= k ->
  Z.land a (Z.shiftl 255 (8 * k)) = 0 <-> Ref.byte_of a k = 0.
Proof.
  intros Hk. rewrite byte_mask_land by lia. apply Z.shiftl_eq_0_iff. lia.
Qed.

Lemma RiscVOrcb_byte (x k : Z) :
  0 <= k <= 3 ->
  Ref.byte_of (RV32.RiscVOrcb x) k =
  if decide (Ref.byte_of x k = 0) then 0 else 255.
Proof.
  intros Hk. rewrite RiscVOrcb_unfold. cbv zeta.
  pose proof (byte_mask_zero x 0 ltac:(lia)) as H0.
  pose proof (byte_mask_zero x 1 ltac:(lia)) as H1.
  pose proof (byte_mask_zero x 2 ltac:(lia)) as H2.
  pose proof (byte_mask_zero x 3 ltac:(lia)) as H3.
  change (Z.shiftl 255 (8 * 0)) with 255 in H0.
  change (Z.shiftl 255 (8 * 1)) with 65280 in H1.
  change (Z.shiftl 255 (8 * 2)) with 16711680 in H2.
  change (Z.shiftl 255 (8 * 3)) with 4278190080 in H3.
  assert (Hcase : k = 0 \/ k = 1 \/ k = 2 \/ k = 3) by lia.
  destruct (decide (Z.land x 255 <> 0)),
    (decide (Z.land x 65280 <> 0)),
    (decide (Z.land x 16711680 <> 0)),
    (decide (Z.land x 4278190080 <> 0));
    destruct Hcase as [->|[->|[->| ->]]];
    match goal with
    | |- context [decide (?b = 0)] => destruct (decide (b = 0))
    end;
    vm_compute; first [ reflexivity | exfalso; tauto ].
Qed.

Lemma RiscVOrcb_is_u32 (x : Z) : is_u32 (RV32.RiscVOrcb x).
Proof.
  rewrite RiscVOrcb_unfold. cbv zeta.
  destruct (decide (Z.land x 255 <> 0)),
    (decide (Z.land x 65280 <> 0)),
    (decide (Z.land x 16711680 <> 0)),
    (decide (Z.land x 4278190080 <> 0));
    vm_compute; (split; [discriminate | reflexivity]).
Qed.

Lemma RiscVRev8_byte (x k : Z) :
  0 <= k <= 3 ->
  Ref.byte_of (RV32.RiscVRev8 x) k = Ref.byte_of x (3 - k).
Proof.
  intros Hk. apply Z.bits_inj'. intros n Hn.
  rewrite !byte_of_testbit, RiscVRev8_testbit by lia.
  destruct (Z.ltb_spec n 8) as [Hlt|Hge]; [|reflexivity].
  destruct (Z.ltb_spec (n + 8 * k) 32); [|lia]. simpl.
  f_equal. Z.div_mod_to_equations. lia.
Qed.

(** A 32-bit word is determined by its four bytes. *)
Lemma u32_bytes_eq (a b : Z) :
  is_u32 a -> is_u32 b ->
  (forall k, 0 <= k <= 3 -> Ref.byte_of a k = Ref.byte_of b k) -> a = b.
Proof.
  intros Ha Hb Hbytes. apply u32_bits_eq; [assumption..|].
  intros n Hn.
  assert (Hk : 0 <= n / 8 <= 3) by (Z.div_mod_to_equations; lia).
  pose proof (f_equal (fun v => Z.testbit v (n mod 8)) (Hbytes _ Hk)) as Hbit.
  simpl in Hbit.
  rewrite !byte_of_testbit in Hbit by (Z.div_mod_to_equations; lia).
  replace (n mod 8 + 8 * (n / 8)) with n in Hbit
    by (Z.div_mod_to_equations; lia).
  destruct (Z.ltb_spec (n mod 8) 8); [|Z.div_mod_to_equations; lia].
  exact Hbit.
Qed.

(** X11: every byte of [orc_b(x)] is [0xFF] if the byte of [x] at the same
    place is not zero, and [0x00] if it is. *)
Theorem orcb_bytes (x k : Z) (Hk : 0 <= k <= 3) :
  Ref.byte_of (RV32.RiscVOrcb x) k =
  if decide (Ref.byte_of x k = 0) then 0 else 255.
Proof. exact (RiscVOrcb_byte x k Hk). Qed.

Lemma orcb_bytes_witness :
  Ref.byte_of (RV32.RiscVOrcb 0x00120001) 2 =
  if decide (Ref.byte_of 0x00120001 2 = 0) then 0 else 255.
Proof. apply (orcb_bytes 0x00120001 2). lia. Defined.

(** X12: [orc_b] is idempotent, it commutes with [rev8], it keeps every
    set bit of its operand, and on a 32-bit operand it returns zero only
    for zero. *)
Theorem orcb_laws (x : Z) (Hx : is_u32 x) :
  RV32.RiscVOrcb (RV32.RiscVOrcb x) = RV32.RiscVOrcb x /\
  RV32.RiscVOrcb (RV32.RiscVRev8 x) = RV32.RiscVRev8 (RV32.RiscVOrcb x) /\
  Z.lor x (RV32.RiscVOrcb x) = RV32.RiscVOrcb x /\
  (RV32.RiscVOrcb x = 0 <-> x = 0).
Proof.
  split_all.
  - apply u32_bytes_eq; try apply RiscVOrcb_is_u32.
    intros k Hk. rewrite !RiscVOrcb_byte by lia.
    destruct (decide (Ref.byte_of x k = 0)); reflexivity.
  - apply u32_bytes_eq; [apply RiscVOrcb_is_u32 | apply RiscVRev8_is_u32 |].
    intros k Hk.
    rewrite RiscVOrcb_byte, !RiscVRev8_byte, RiscVOrcb_byte by lia.
    reflexivity.
  - apply u32_bits_eq.
    + apply u32_of_high_bits. intros n Hn. rewrite Z.lor_spec.
      rewrite !is_u32_high_bits
        by (assumption || apply RiscVOrcb_is_u32 || lia).
      reflexivity.
    + apply RiscVOrcb_is_u32.
    + intros n Hn. rewrite Z.lor_spec.
      destruct (Z.testbit x n) eqn:Hbit; [|reflexivity]. simpl. symmetry.
      assert (Hk : 0 <= n / 8 <= 3) by (Z.div_mod_to_equations; lia).
      pose proof (RiscVOrcb_byte x (n / 8) Hk) as Hbyte.
      assert (Hnz : Ref.byte_of x (n / 8) <> 0).
      { intros Hz.
        pose proof (f_equal (fun v => Z.testbit v (n mod 8)) Hz) as Hb.
        simpl in Hb.
        rewrite byte_of_testbit, Z.testbit_0_l in Hb
          by (Z.div_mod_to_equations; lia).
        replace (n mod 8 + 8 * (n / 8)) with n in Hb
          by (Z.div_mod_to_equations; lia).
        rewrite Hbit in Hb.
        destruct (Z.ltb_spec (n mod 8) 8);
          [discriminate | Z.div_mod_to_equations; lia]. }
      rewrite decide_False in Hbyte by exact Hnz.
      pose proof (f_equal (fun v => Z.testbit v (n mod 8)) Hbyte) as Hb.
      simpl in Hb.
      rewrite byte_of_testbit in Hb by (Z.div_mod_to_equations; lia).
      replace (n mod 8 + 8 * (n / 8)) with n in Hb
        by (Z.div_mod_to_equations; lia).
      change 255 with (Z.ones 8) in Hb.
      rewrite Z.testbit_ones_nonneg in Hb by (Z.div_mod_to_equations; lia).
      destruct (Z.ltb_spec (n mod 8) 8);
        [exact Hb | Z.div_mod_to_equations; lia].
  - split.
    + intros Hz. apply u32_bytes_eq; [assumption | unfold is_u32; lia |].
      intros k Hk.
      pose proof (RiscVOrcb_byte x k Hk) as Hbyte. rewrite Hz in Hbyte.
      destruct (decide (Ref.byte_of x k = 0)) as [Hzero|Hnz].
      * rewrite Hzero. symmetry. exact Hbyte.
      * exfalso. unfold Ref.byte_of, Ref.bits in Hbyte.
        rewrite Z.shiftr_0_l, Z.mod_0_l in Hbyte by lia. discriminate.
    + intros ->. reflexivity.
Qed.

Lemma orcb_laws_witness :
  RV32.RiscVOrcb (RV32.RiscVOrcb 0x00120001) = RV32.RiscVOrcb 0x00120001 /\
  RV32.RiscVOrcb (RV32.RiscVRev8 0x00120001) =
    RV32.RiscVRev8 (RV32.RiscVOrcb 0x00120001) /\
  Z.lor 0x00120001 (RV32.RiscVOrcb 0x00120001) = RV32.RiscVOrcb 0x00120001 /\
  (RV32.RiscVOrcb 0x00120001 = 0 <-> 0x00120001 = 0).
Proof. apply (orcb_laws 0x00120001). unfold is_u32. lia. Defined.

(** ** Algebra of the carry-less product *)

Lemma xor_fold_acc (f : Z -> bool) (l : list Z) (acc : bool) :
  fold_left (fun acc i => xorb acc (f i)) l acc =
  xorb acc (fold_left (fun acc i => xorb acc (f i)) l false).
Proof.
  revert acc. induction l as [|i l IH]; intros acc; simpl.
  - rewrite xorb_false_r. reflexivity.
  - rewrite IH, (IH (f i)), xorb_assoc. reflexivity.
Qed.

Lemma xor_range_first (f : Z -> bool) (lo hi : Z) :
  lo < hi ->
  Ref.xor_range f lo hi = xorb (f lo) (Ref.xor_range f (lo + 1) hi).
Proof.
  intros Hlt. unfold Ref.xor_range.
  rewrite (for_loop_split lo (lo + 1) hi) by lia.
  rewrite for_loop_single. unfold for_loop. simpl. apply xor_fold_acc.
Qed.

Lemma xor_range_shift (f : Z -> bool) (lo hi d : Z) :
  Ref.xor_range f (lo + d) (hi + d) =
  Ref.xor_range (fun i => f (i + d)) lo hi.
Proof.
  unfold Ref.xor_range, for_loop.
  replace (hi + d - (lo + d)) with (hi - lo) by lia.
  rewrite (Z.add_comm lo d), <- fmap_add_seqZ.
  generalize (seqZ lo (hi - lo)) false. intros l.
  induction l as [|i l IH]; intros acc; simpl.
  - reflexivity.
  - rewrite IH. rewrite (Z.add_comm d i). reflexivity.
Qed.

(** The terms of a sum over [0 <= j <= m] can be taken in reverse. *)
Lemma xor_range_reverse (f : Z -> bool) (k : nat) :
  Ref.xor_range f 0 (Z.of_nat k) =
  Ref.xor_range (fun j => f (Z.of_nat k - 1 - j)) 0 (Z.of_nat k).
Proof.
  revert f. induction k as [|k IH]; intros f.
  - reflexivity.
  - rewrite Nat2Z.inj_succ. unfold Z.succ.
    rewrite xor_range_last by lia.
    rewrite (xor_range_first _ 0 (Z.of_nat k + 1)) by lia.
    replace (Z.of_nat k + 1 - 1 - 0) with (Z.of_nat k) by lia.
    rewrite xorb_comm. f_equal.
    rewrite (xor_range_shift _ 0 (Z.of_nat k) 1).
    rewrite IH. apply xor_range_ext. intros j Hj. f_equal. lia.
Qed.

Lemma xor_range_xorb (f g : Z -> bool) (lo hi : Z) :
  Ref.xor_range (fun i => xorb (f i) (g i)) lo hi =
  xorb (Ref.xor_range f lo hi) (Ref.xor_range g lo hi).
Proof.
  unfold Ref.xor_range, for_loop.
  generalize (seqZ lo (hi - lo)). intros l.
  assert (Hgen : forall a b,
    fold_left (fun acc i => xorb acc (xorb (f i) (g i))) l (xorb a b) =
    xorb (fold_left (fun acc i => xorb acc (f i)) l a)
         (fold_left (fun acc i => xorb acc (g i)) l b)).
  { induction l as [|i l IH]; intros a b; simpl; [reflexivity|].
    rewrite <- IH. f_equal.
    destruct a, b, (f i), (g i); reflexivity. }
  apply (Hgen false false).
Qed.

Lemma clprod_bit_comm (a b n : Z) :
  0 <= n -> Ref.clprod_bit a b n = Ref.clprod_bit b a n.
Proof.
  intros Hn. unfold Ref.clprod_bit.
  replace (n + 1) with (Z.of_nat (Z.to_nat (n + 1))) by lia.
  rewrite xor_range_reverse. apply xor_range_ext. intros j Hj.
  rewrite andb_comm. do 2 f_equal; lia.
Qed.

Lemma clprod_bit_lxor_l (a a' b n : Z) :
  Ref.clprod_bit (Z.lxor a a') b n =
  xorb (Ref.clprod_bit a b n) (Ref.clprod_bit a' b n).
Proof.
  unfold Ref.clprod_bit. rewrite <- xor_range_xorb.
  apply xor_range_ext. intros j Hj. rewrite Z.lxor_spec.
  destruct (Z.testbit b j), (Z.testbit a (n - j)), (Z.testbit a' (n - j));
    reflexivity.
Qed.

Lemma RiscVClmul_comm (a b : Z) : RV32.RiscVClmul a b = RV32.RiscVClmul b a.
Proof.
  apply Z.bits_inj'. intros n Hn.
  rewrite !RiscVClmul_testbit, clprod_bit_comm by lia. reflexivity.
Qed.

(** X13: [clmul] is commutative, and so is [clmulh] on 32-bit operands. *)
Theorem clmul_commutative (a b : Z) (Ha : is_u32 a) (Hb : is_u32 b) :
  RV32.RiscVClmul a b = RV32.RiscVClmul b a /\
  RV32.RiscVClmulh a b = RV32.RiscVClmulh b a.
Proof.
  split; [apply RiscVClmul_comm|].
  apply Z.bits_inj'. intros n Hn.
  rewrite !RiscVClmulh_testbit, clprod_bit_comm by (assumption || lia).
  reflexivity.
Qed.

Lemma clmul_commutative_witness :
  RV32.RiscVClmul 0xF0F0 0x80000003 = RV32.RiscVClmul 0x80000003 0xF0F0 /\
  RV32.RiscVClmulh 0xF0F0 0x80000003 = RV32.RiscVClmulh 0x80000003 0xF0F0.
Proof. apply (clmul_commutative 0xF0F0 0x80000003); unfold is_u32; lia. Defined.

(** X14: [clmul] distributes over exclusive or in either operand. *)
Theorem clmul_distributes_over_xor (a a' b : Z) :
  RV32.RiscVClmul (Z.lxor a a') b =
    Z.lxor (RV32.RiscVClmul a b) (RV32.RiscVClmul a' b) /\
  RV32.RiscVClmul b (Z.lxor a a') =
    Z.lxor (RV32.RiscVClmul b a) (RV32.RiscVClmul b a').
Proof.
  assert (Hleft : forall u v w, RV32.RiscVClmul (Z.lxor u v) w =
                    Z.lxor (RV32.RiscVClmul u w) (RV32.RiscVClmul v w)).
  { intros u v w. apply Z.bits_inj'. intros n Hn.
    rewrite Z.lxor_spec, !RiscVClmul_testbit, clprod_bit_lxor_l by lia.
    destruct (Z.ltb_spec n 32); [reflexivity|]. reflexivity. }
  split; [apply Hleft|].
  rewrite (RiscVClmul_comm b), Hleft, !(RiscVClmul_comm b). reflexivity.
Qed.

(** X15: [clmul] by a power of two is a left shift: for [k] in [0, 31],
    [clmul(a, 1 << k) = a << k] on 32 bits; by 1 it returns a 32-bit operand
    unchanged and by 0 it returns 0. *)
Theorem clmul_by_power_of_two (a k : Z) (Ha : is_u32 a) (Hk : 0 <= k <= 31) :
  RV32.RiscVClmul a (shl32 1 k) = shl32 a k /\
  RV32.RiscVClmul a 1 = a /\
  RV32.RiscVClmul a 0 = 0.
Proof.
  assert (Hpow : forall j, 0 <= j <= 31 ->
            RV32.RiscVClmul a (2 ^ j) = shl32 a j).
  { intros j Hj. apply Z.bits_inj'. intros n Hn.
    rewrite RiscVClmul_testbit, shl32_testbit by lia.
    destruct (Z.ltb_spec n 32) as [Hlt|Hge]; [|reflexivity]. simpl.
    unfold Ref.clprod_bit.
    destruct (decide (j <= n)) as [Hle|Hgt].
    - rewrite (xor_range_restrict _ 0 j (j + 1) (n + 1)) by
        (try lia; intros i Hi Hout; rewrite Z.pow2_bits_eqb by lia;
         destruct (Z.eqb_spec j i); first [lia | reflexivity]).
      rewrite (xor_range_first _ j (j + 1)) by lia.
      rewrite xor_range_all_false by (intros i Hi; lia).
      rewrite Z.pow2_bits_eqb, Z.eqb_refl, xorb_false_r by lia.
      reflexivity.
    - rewrite (Z.testbit_neg_r a (n - j)) by lia.
      apply xor_range_all_false. intros i Hi.
      rewrite Z.pow2_bits_eqb by lia.
      destruct (Z.eqb_spec j i); [lia | reflexivity]. }
  split_all.
  - rewrite shl32_1 by lia. apply Hpow. lia.
  - change 1 with (2 ^ 0). rewrite Hpow by lia.
    unfold shl32. rewrite Z.shiftl_0_r. apply wrap32_small, Ha.
  - apply Z.bits_inj'. intros n Hn.
    rewrite RiscVClmul_testbit, Z.testbit_0_l by lia.
    unfold Ref.clprod_bit.
    rewrite xor_range_all_false
      by (intros i Hi; rewrite Z.testbit_0_l; reflexivity).
    apply andb_false_r.
Qed.

Lemma clmul_by_power_of_two_witness :
  RV32.RiscVClmul 0xF0F0F0F0 (shl32 1 5) = shl32 0xF0F0F0F0 5 /\
  RV32.RiscVClmul 0xF0F0F0F0 1 = 0xF0F0F0F0 /\
  RV32.RiscVClmul 0xF0F0F0F0 0 = 0.
Proof.
  apply (clmul_by_power_of_two 0xF0F0F0F0 5); unfold is_u32; lia.
Defined.

(** X16: on 32-bit operands [clmulh] returns bits [63:32] of the 64-bit
    carry-less product. *)
Theorem clmulh_is_high_half (a b : Z) (Ha : is_u32 a) (Hb : is_u32 b) :
  RV32.RiscVClmulh a b = Ref.bits (Ref.clprod a b) 63 32.
Proof. exact (clmulh_high_bits a b Ha Hb). Qed.

Lemma clmulh_is_high_half_witness :
  RV32.RiscVClmulh 0xF0F0F0F0 0x80000003 =
  Ref.bits (Ref.clprod 0xF0F0F0F0 0x80000003) 63 32.
Proof.
  apply (clmulh_is_high_half 0xF0F0F0F0 0x80000003); unfold is_u32; lia.
Defined.

(** X17: [clmulr(a, b)] is bits [62:31] of the carry-less product with the
    contribution of bit 31 of [b] left out: the result is those bits
    exclusive-or [a] when bit 31 of [b] is set, and those bits themselves
    when it is clear. *)
Theorem clmulr_value (a b : Z) (Ha : is_u32 a) (Hb : is_u32 b) :
  RV32.RiscVClmulr a b =
  Z.lxor (Ref.bits (Ref.clprod a b) 62 31)
         (if Z.testbit b 31 then a else 0).
Proof.
  apply Z.bits_inj'. intros n Hn.
  rewrite RiscVClmulr_testbit, Z.lxor_spec, bits_testbit, clprod_testbit
    by (assumption || lia).
  change (62 - 31 + 1) with 32.
  destruct (Z.testbit b 31);
    rewrite ?Z.testbit_0_l, ?andb_true_l, ?andb_false_l, ?xorb_false_r;
    destruct (Z.ltb_spec n 32) as [Hlt|Hge];
    rewrite ?andb_true_l, ?andb_false_l;
    try reflexivity.
  - destruct (Z.ltb_spec (n + 31) 64); [reflexivity | lia].
  - rewrite (is_u32_high_bits a) by (assumption || lia). reflexivity.
  - destruct (Z.ltb_spec (n + 31) 64); [reflexivity | lia].
Qed.

Lemma clmulr_value_witness :
  RV32.RiscVClmulr 0xF0F0F0F0 0x80000003 =
  Z.lxor (Ref.bits (Ref.clprod 0xF0F0F0F0 0x80000003) 62 31)
         (if Z.testbit 0x80000003 31 then 0xF0F0F0F0 else 0).
Proof.
  apply (clmulr_value 0xF0F0F0F0 0x80000003); unfold is_u32; lia.
Defined.

(** X18: when bit 31 of the second operand is clear, [clmulh(a, b)] is
    [clmulr(a, b)] shifted right by one. *)
Theorem clmulh_half_of_clmulr (a b : Z)
  (Ha : is_u32 a) (Hb : 0 <= b < 2 ^ 31) :
  RV32.RiscVClmulh a b = Z.shiftr (RV32.RiscVClmulr a b) 1.
Proof. exact (clmulh_clmulr_small_operand a b Ha Hb). Qed.

Lemma clmulh_half_of_clmulr_witness :
  RV32.RiscVClmulh 0xF0F0F0F0 0x70000003 =
  Z.shiftr (RV32.RiscVClmulr 0xF0F0F0F0 0x70000003) 1.
Proof.
  apply (clmulh_half_of_clmulr 0xF0F0F0F0 0x70000003); unfold is_u32; lia.
Defined.

(** ** Rotations within range *)

Lemma rotl32_testbit (x k n : Z) :
  is_u32 x -> 1 <= k <= 31 -> 0 <= n < 32 ->
  Z.testbit (Ref.rotl32 x k) n = Z.testbit x ((n - k) mod 32).
Proof.
  intros Hx Hk Hn. unfold Ref.rotl32.
  rewrite wrap32_testbit, Z.lor_spec, Z.shiftl_spec, Z.shiftr_spec by lia.
  destruct (Z.ltb_spec n 32); [|lia]. simpl.
  destruct (decide (k <= n)) as [Hle|Hgt].
  - rewrite (is_u32_high_bits x (n + (32 - k))) by (assumption || lia).
    rewrite orb_false_r. f_equal. rewrite Z.mod_small; lia.
  - rewrite (Z.testbit_neg_r x (n - k)) by lia. simpl. f_equal.
    replace (n - k) with (n + (32 - k) + (-1) * 32) by lia.
    rewrite Z.mod_add, Z.mod_small; lia.
Qed.

Lemma rotr32_testbit (x k n : Z) :
  is_u32 x -> 1 <= k <= 31 -> 0 <= n < 32 ->
  Z.testbit (Ref.rotr32 x k) n = Z.testbit x ((n + k) mod 32).
Proof.
  intros Hx Hk Hn. unfold Ref.rotr32.
  rewrite wrap32_testbit, Z.lor_spec, Z.shiftl_spec, Z.shiftr_spec by lia.
  destruct (Z.ltb_spec n 32); [|lia]. simpl.
  destruct (decide (n + k < 32)) as [Hlt|Hge].
  - rewrite (Z.testbit_neg_r x (n - (32 - k))) by lia.
    rewrite orb_false_r. f_equal. rewrite Z.mod_small; lia.
  - rewrite (is_u32_high_bits x (n + k)) by (assumption || lia). simpl.
    f_equal. replace (n + k) with (n - (32 - k) + 1 * 32) by lia.
    rewrite Z.mod_add, Z.mod_small; lia.
Qed.

Lemma rotl32_is_u32 (x k : Z) : is_u32 (Ref.rotl32 x k).
Proof. apply wrap32_is_u32. Qed.

Lemma rotr32_is_u32 (x k : Z) : is_u32 (Ref.rotr32 x k).
Proof. apply wrap32_is_u32. Qed.

(** X19: for a count [k] in [1, 31], [rol] and [ror] return a 32-bit word
    whose bit [n] is bit [(n - k) mod 32], respectively [(n + k) mod 32], of
    the operand. *)
Theorem rotate_bits (x k n : Z)
  (Hx : is_u32 x) (Hk : 1 <= k <= 31) (Hn : 0 <= n < 32) :
  exists l r,
    RV32.RiscVrol x k = Some l /\ RV32.RiscVror x k = Some r /\
    is_u32 l /\ is_u32 r /\
    Z.testbit l n = Z.testbit x ((n - k) mod 32) /\
    Z.testbit r n = Z.testbit x ((n + k) mod 32).
Proof.
  exists (Ref.rotl32 x k), (Ref.rotr32 x k). split_all.
  - apply RiscVrol_in_range; assumption.
  - apply RiscVror_in_range; assumption.
  - apply rotl32_is_u32.
  - apply rotr32_is_u32.
  - apply rotl32_testbit; assumption.
  - apply rotr32_testbit; assumption.
Qed.

Lemma rotate_bits_witness :
  exists l r,
    RV32.RiscVrol 0x80000001 4 = Some l /\
    RV32.RiscVror 0x80000001 4 = Some r /\
    is_u32 l /\ is_u32 r /\
    Z.testbit l 3 = Z.testbit 0x80000001 ((3 - 4) mod 32) /\
    Z.testbit r 3 = Z.testbit 0x80000001 ((3 + 4) mod 32).
Proof. apply (rotate_bits 0x80000001 4 3); unfold is_u32; lia. Defined.

(** X20: for a count [k] in [1, 31], [ror] undoes [rol] and [rol] undoes
    [ror], and [rol] by [k] is [ror] by [32 - k]. *)
Theorem rotate_round_trip (x k : Z) (Hx : is_u32 x) (Hk : 1 <= k <= 31) :
  (RV32.RiscVrol x k ≫= fun y => RV32.RiscVror y k) = Some x /\
  (RV32.RiscVror x k ≫= fun y => RV32.RiscVrol y k) = Some x /\
  RV32.RiscVrol x k = RV32.RiscVror x (32 - k).
Proof.
  rewrite (RiscVrol_in_range x k), (RiscVror_in_range x k) by assumption.
  simpl.
  rewrite RiscVror_in_range, RiscVrol_in_range, RiscVror_in_range
    by (apply rotl32_is_u32 || apply rotr32_is_u32 || assumption || lia).
  split_all; f_equal; apply u32_bits_eq;
    try apply rotl32_is_u32; try apply rotr32_is_u32; try assumption;
    intros n Hn.
  - rewrite rotr32_testbit, rotl32_testbit
      by (apply rotl32_is_u32 || assumption || lia
          || apply Z.mod_pos_bound; lia).
    f_equal. rewrite Zminus_mod_idemp_l.
    replace (n + k - k) with n by lia. apply Z.mod_small. lia.
  - rewrite rotl32_testbit, rotr32_testbit
      by (apply rotr32_is_u32 || assumption || lia
          || apply Z.mod_pos_bound; lia).
    f_equal. rewrite Zplus_mod_idemp_l.
    replace (n - k + k) with n by lia. apply Z.mod_small. lia.
  - rewrite rotl32_testbit, rotr32_testbit by (assumption || lia).
    f_equal. replace (n + (32 - k)) with (n - k + 1 * 32) by lia.
    apply eq_sym, Z.mod_add. lia.
Qed.

Lemma rotate_round_trip_witness :
  (RV32.RiscVrol 0x80000001 4 ≫= fun y => RV32.RiscVror y 4) =
    Some 0x80000001 /\
  (RV32.RiscVror 0x80000001 4 ≫= fun y => RV32.RiscVrol y 4) =
    Some 0x80000001 /\
  RV32.RiscVrol 0x80000001 4 = RV32.RiscVror 0x80000001 (32 - 4).
Proof. apply (rotate_round_trip 0x80000001 4); unfold is_u32; lia. Defined.

(** * Further properties of the driver *)

(** ** Whether and where the stack pointer starts *)


(** X22: when the executable has no GNU_STACK segment, the value written to
    [sp] is the stack base (flag, else [__stack_end]) plus the stack size
    (flag, else [__stack_size], else 32 KiB), modulo [2^64]. *)
Theorem stack_pointer_without_gnu_stack
  (flags : Sim.Flags) (loader : Sim.ElfProgramLoader)
  (Hnone : Sim.GetStackSize loader = None) :
  Sim.sp_initial_value flags loader = Ref.initial_sp flags loader.
Proof. exact (sp_initial_value_without_gnu_stack flags loader Hnone). Qed.

Lemma stack_pointer_without_gnu_stack_witness :
  Sim.sp_initial_value flags_unset elf_plain =
  Ref.initial_sp flags_unset elf_plain.
Proof. apply (stack_pointer_without_gnu_stack flags_unset elf_plain). reflexivity. Defined.

(** X23: when the executable has a GNU_STACK segment and a stack base is
    known, the segment size takes the place of the base: [sp] is the segment
    size plus the stack size of the flag, else of [__stack_size], else
    32 KiB. *)
Theorem gnu_stack_replaces_base
  (flags : Sim.Flags) (loader : Sim.ElfProgramLoader) (base segment : Z)
  (Hbase : Ref.stack_base flags loader = Some base)
  (Hseg : Sim.GetStackSize loader = Some segment) :
  Sim.sp_initial_value flags loader =
  Some (wrap64 (segment +
                match Sim.FLAGS_stack_size flags with
                | Some v => v
                | None =>
                    match Sim.GetSymbol loader Sim.kStackSizeSymbolName with
                    | Some res => res.1
                    | None => 32 * 1024
                    end
                end)).
Proof.
  exact (sp_initial_value_with_gnu_stack flags loader base segment Hbase Hseg).
Qed.

Lemma gnu_stack_replaces_base_witness :
  Sim.sp_initial_value flags_unset elf_gnu_stack =
  Some (wrap64 (0x10000 +
                match Sim.FLAGS_stack_size flags_unset with
                | Some v => v
                | None =>
                    match Sim.GetSymbol elf_gnu_stack Sim.kStackSizeSymbolName with
                    | Some res => res.1
                    | None => 32 * 1024
                    end
                end)).
Proof.
  apply (gnu_stack_replaces_base flags_unset elf_gnu_stack 0x200000 0x10000);
    reflexivity.
Defined.


(** ** Outcomes of [main] *)

Lemma same_event_eq (a b : Sim.Event) : Sim.same_event a b = true -> a = b.
Proof. destruct a, b; simpl; intros H; (discriminate H || reflexivity). Qed.

Lemma has_event_In (e : Sim.Event) (tr : list Sim.Event) :
  existsb (Sim.same_event e) tr = true -> In e tr.
Proof.
  intros H. apply existsb_exists in H. destruct H as (x & Hin & Heq).
  apply same_event_eq in Heq. subst x. exact Hin.
Qed.

Lemma has_event_not_In (e : Sim.Event) (tr : list Sim.Event) :
  Sim.same_event e e = true ->
  existsb (Sim.same_event e) tr = false -> ~ In e tr.
Proof.
  intros He H Hin.
  assert (Hex : existsb (Sim.same_event e) tr = true)
    by (apply existsb_exists; exists e; split; assumption).
  rewrite Hex in H. discriminate.
Qed.

(** A conditional message, as a function of the trace. *)
Lemma when_emit_fun (c : bool) (e : Sim.Event) :
  Sim.when c (fun tr => (tr ++ [e], inl tt)) =
  fun tr => (if c then tr ++ [e] else tr, inl tt).
Proof. destruct c; reflexivity. Qed.

Lemma existsb_if_snoc {A} (f : A -> bool) (c : bool) (l : list A) (e : A) :
  existsb f (if c then l ++ [e] else l) = existsb f l || (c && f e).
Proof.
  destruct c; simpl.
  - rewrite existsb_app. simpl. rewrite orb_false_r. reflexivity.
  - rewrite orb_false_r. reflexivity.
Qed.

(** Split on the statuses that decide how [main] goes on. *)
Ltac case_on_status :=
  repeat (cbn [negb andb orb];
          match goal with
          | |- context [(match ?o with Some _ => _ | None => _ end) _] =>
              is_var o; destruct o
          | |- context [(if ?b then _ else _) _] => is_var b; destruct b
          | |- context [(if negb ?b then _ else _) _] => is_var b; destruct b
          | |- context [(if ?b && _ then _ else _) _] => is_var b; destruct b
          | |- context [(if ?b || _ then _ else _) _] => is_var b; destruct b
          end);
  cbn [negb andb orb].

(** Decide a membership in a trace that still has conditional messages. *)
Ltac has_event :=
  rewrite ?existsb_app, ?existsb_if_snoc; cbn [existsb Sim.same_event];
  repeat match goal with
         | |- context [negb ?c] => is_var c; destruct c
         | |- context [if ?c then _ else _] => is_var c; destruct c
         | |- context [?c && _] => is_var c; destruct c
         end;
  reflexivity.

Ltac not_in_trace := apply has_event_not_In; [reflexivity | has_event].

Ltac in_trace := apply has_event_In; has_event.

Lemma main_outcome (flags : Sim.Flags) (arg_vec : list string) (env : Sim.Env) :
  match Sim.main flags arg_vec env with
  | (tr, Sim.Return code) =>
      code = 0 /\ In Sim.NewTop tr /\ In Sim.ExportCounters tr /\
        In Sim.ClearAllSwBreakpoints tr /\
        (In Sim.TopRun tr \/ In Sim.ShellRun tr) \/
      code = -1 /\ ~ In Sim.TopRun tr /\ ~ In Sim.ShellRun tr /\
        ((2 < length arg_vec)%nat \/
         (exists file, arg_vec !! 1%nat = Some file /\
                       Sim.LoadProgram (Sim.elf_loader env) file = None) \/
         Sim.pc_write_ok env = false \/ Sim.sp_write_ok env = false)
  | (tr, Sim.Abort) =>
      ~ In Sim.TopRun tr /\ Sim.add_counter_ok env = false \/
      Sim.export_ok env = false
  | (tr, Sim.Undefined) => (length arg_vec < 2)%nat /\ ~ In Sim.NewMemory tr
  end.
Proof.
  destruct flags as [fi fint fdir fhtif farm fsize fend fecall].
  destruct env as [loader pcok spok cntok runok waitok expok protook clrok].
  unfold Sim.main.
  cbn [Sim.FLAGS_i Sim.FLAGS_interactive Sim.FLAGS_semihost_htif
    Sim.FLAGS_semihost_arm Sim.FLAGS_exit_on_ecall Sim.elf_loader
    Sim.pc_write_ok Sim.sp_write_ok Sim.add_counter_ok Sim.run_ok Sim.wait_ok
    Sim.export_ok Sim.proto_ok Sim.clear_ok].
  match goal with
  | |- context [Sim.sp_initial_value ?f ?l] =>
      generalize (Sim.sp_initial_value f l)
  end.
  generalize (Sim.GetMagicAddresses loader).
  intros magic sp.
  cbv [Sim.run_main mbind mret Sim.M_bind Sim.M_ret Sim.emit
       Sim.finish Sim.check_ok].
  rewrite ?when_emit_fun. cbv [Sim.when].
  destruct (bool_decide (2 < length arg_vec)%nat) eqn:Hlen;
    [apply bool_decide_eq_true in Hlen | apply bool_decide_eq_false in Hlen].
  { destruct fhtif, farm;
      (cbv beta iota zeta delta [mret Sim.M_ret]; right;
       split_all; [reflexivity | not_in_trace | not_in_trace | left; exact Hlen]). }
  destruct (arg_vec !! 1%nat) as [file|] eqn:Harg.
  2: { apply lookup_ge_None in Harg.
       destruct fhtif, farm;
         (cbv beta iota zeta delta [mret Sim.M_ret]; split; [lia | not_in_trace]). }
  destruct (Sim.LoadProgram loader file) as [entry|] eqn:Hload.
  2: { destruct fhtif, farm;
         (cbv beta iota zeta delta [mret Sim.M_ret]; right;
          split_all; [reflexivity | not_in_trace | not_in_trace |];
          right; left; exists file; split; [reflexivity | exact Hload]). }
  clear Hlen Harg Hload.
  case_on_status.
  all: cbv beta iota zeta delta [mret Sim.M_ret].
  all: first
    [ left; split_all;
        [reflexivity | in_trace | in_trace | in_trace |];
        first [left; solve [in_trace] | right; solve [in_trace]]
    | right; split_all; [reflexivity | not_in_trace | not_in_trace |];
        first [ right; right; left; reflexivity
              | right; right; right; reflexivity ]
    | left; split; [not_in_trace | reflexivity]
    | right; reflexivity ].
Qed.

(** X25: whenever [main] returns -1 the core has not been started, neither
    by [Run] nor by the debug shell, and the cause is one of: more than one
    input file, a failed load, a failed write of [pc] or of [sp]. *)
Theorem main_error_exit_never_runs
  (flags : Sim.Flags) (arg_vec : list string) (env : Sim.Env)
  (tr : list Sim.Event)
  (Hret : Sim.main flags arg_vec env = (tr, Sim.Return (-1))) :
  (~ In Sim.TopRun tr) /\ (~ In Sim.ShellRun tr) /\
  ((2 < length arg_vec)%nat \/
   (exists file, arg_vec !! 1%nat = Some file /\
                 Sim.LoadProgram (Sim.elf_loader env) file = None) \/
   Sim.pc_write_ok env = false \/ Sim.sp_write_ok env = false).
Proof.
  pose proof (main_outcome flags arg_vec env) as Hout.
  rewrite Hret in Hout.
  destruct Hout as [(Hcode & _)|(_ & Hrest)]; [discriminate | exact Hrest].
Qed.

Lemma main_error_exit_never_runs_witness :
  (~ In Sim.TopRun [Sim.Cerr "Only a single input file allowed"]) /\
  (~ In Sim.ShellRun [Sim.Cerr "Only a single input file allowed"]) /\
  ((2 < length ["rv32gv_sim"; "a.elf"; "b.elf"])%nat \/
   (exists file, ["rv32gv_sim"; "a.elf"; "b.elf"] !! 1%nat = Some file /\
                 Sim.LoadProgram (Sim.elf_loader (env_ok elf_plain)) file = None) \/
   Sim.pc_write_ok (env_ok elf_plain) = false \/
   Sim.sp_write_ok (env_ok elf_plain) = false).
Proof.
  apply (main_error_exit_never_runs Sim.default_flags
           ["rv32gv_sim"; "a.elf"; "b.elf"] (env_ok elf_plain)).
  reflexivity.
Defined.





Ltac start_main :=
  unfold Sim.main;
  cbv [Sim.run_main mbind mret Sim.M_bind Sim.M_ret Sim.emit
       Sim.finish Sim.check_ok Sim.when].

(** X28: with a number of command line words other than two, [main]
    constructs nothing: with more it returns -1, and with fewer (no input
    file) it indexes [arg_vec] out of range. *)
Theorem main_argument_count
  (flags : Sim.Flags) (arg_vec : list string) (env : Sim.Env)
  (Hlen : length arg_vec <> 2%nat) :
  exists tr,
    Sim.main flags arg_vec env =
      (tr, if decide (length arg_vec < 2)%nat
           then Sim.Undefined else Sim.Return (-1)) /\
    (~ In Sim.NewMemory tr) /\ (~ In Sim.NewTop tr).
Proof.
  start_main.
  destruct (decide (length arg_vec < 2)%nat) as [Hlt|Hge].
  - rewrite bool_decide_eq_false_2 by lia.
    assert (Harg : arg_vec !! 1%nat = None) by (apply lookup_ge_None; lia).
    rewrite Harg.
    destruct (Sim.FLAGS_semihost_htif flags && Sim.FLAGS_semihost_arm flags);
      (eexists; split; [reflexivity | split; not_in_trace]).
  - rewrite bool_decide_eq_true_2 by lia.
    destruct (Sim.FLAGS_semihost_htif flags && Sim.FLAGS_semihost_arm flags);
      (eexists; split; [reflexivity | split; not_in_trace]).
Qed.

Lemma main_argument_count_witness :
  exists tr,
    Sim.main Sim.default_flags ["rv32gv_sim"] (env_ok elf_plain) =
      (tr, if decide (length ["rv32gv_sim"] < 2)%nat
           then Sim.Undefined else Sim.Return (-1)) /\
    (~ In Sim.NewMemory tr) /\ (~ In Sim.NewTop tr).
Proof.
  apply (main_argument_count Sim.default_flags ["rv32gv_sim"] (env_ok elf_plain)).
  simpl. lia.
Defined.

(** X29: when the executable cannot be loaded, [main] reports it and
    returns -1 before it constructs the architectural state or the core. *)
Theorem main_load_failure
  (flags : Sim.Flags) (prog file : string) (env : Sim.Env)
  (Hload : Sim.LoadProgram (Sim.elf_loader env) file = None) :
  exists tr,
    Sim.main flags [prog; file] env = (tr, Sim.Return (-1)) /\
    In (Sim.Cerr "Error while loading") tr /\
    (~ In Sim.NewState tr) /\ (~ In Sim.NewTop tr).
Proof.
  assert (Hlen : bool_decide (2 < length [prog; file])%nat = false)
    by (apply bool_decide_eq_false_2; simpl; lia).
  start_main. rewrite Hlen.
  change ([prog; file] !! 1%nat) with (Some file).
  destruct (Sim.FLAGS_semihost_htif flags && Sim.FLAGS_semihost_arm flags);
    (cbv beta iota zeta; rewrite Hload;
     eexists; split; [reflexivity |];
     split; [simpl; tauto | split; not_in_trace]).
Qed.

(** A loader that rejects every file. *)
Lemma main_load_failure_witness :
  exists tr,
    Sim.main Sim.default_flags ["rv32gv_sim"; "missing.elf"]
      (env_ok {| Sim.LoadProgram := fun _ => None;
                 Sim.symbols := stack_symbols;
                 Sim.GetStackSize := None |}) = (tr, Sim.Return (-1)) /\
    In (Sim.Cerr "Error while loading") tr /\
    (~ In Sim.NewState tr) /\ (~ In Sim.NewTop tr).
Proof.
  apply (main_load_failure Sim.default_flags "rv32gv_sim" "missing.elf").
  reflexivity.
Defined.

(** X30: HTIF semihosting is dropped silently when one of the four symbols
    [tohost_ready], [tohost], [fromhost_ready], [fromhost] is missing: the
    run with [--semihost_htif] alone is then the run without it. *)
Theorem htif_ignored_without_symbols
  (fi fint : bool) (fdir : string) (fsize fend : option Z) (fecall : bool)
  (arg_vec : list string) (env : Sim.Env)
  (Hmagic : Sim.GetMagicAddresses (Sim.elf_loader env) = None) :
  Sim.main
    {| Sim.FLAGS_i := fi; Sim.FLAGS_interactive := fint;
       Sim.FLAGS_output_dir := fdir; Sim.FLAGS_semihost_htif := true;
       Sim.FLAGS_semihost_arm := false; Sim.FLAGS_stack_size := fsize;
       Sim.FLAGS_stack_end := fend; Sim.FLAGS_exit_on_ecall := fecall |}
    arg_vec env =
  Sim.main
    {| Sim.FLAGS_i := fi; Sim.FLAGS_interactive := fint;
       Sim.FLAGS_output_dir := fdir; Sim.FLAGS_semihost_htif := false;
       Sim.FLAGS_semihost_arm := false; Sim.FLAGS_stack_size := fsize;
       Sim.FLAGS_stack_end := fend; Sim.FLAGS_exit_on_ecall := fecall |}
    arg_vec env.
Proof.
  unfold Sim.main, Sim.sp_initial_value.
  cbn [Sim.FLAGS_i Sim.FLAGS_interactive Sim.FLAGS_semihost_htif
    Sim.FLAGS_semihost_arm Sim.FLAGS_exit_on_ecall Sim.FLAGS_stack_size
    Sim.FLAGS_stack_end].
  rewrite Hmagic. reflexivity.
Qed.

Lemma htif_ignored_without_symbols_witness :
  Sim.main
    {| Sim.FLAGS_i := false; Sim.FLAGS_interactive := false;
       Sim.FLAGS_output_dir := ""; Sim.FLAGS_semihost_htif := true;
       Sim.FLAGS_semihost_arm := false; Sim.FLAGS_stack_size := None;
       Sim.FLAGS_stack_end := None; Sim.FLAGS_exit_on_ecall := false |}
    ["rv32gv_sim"; "prog.elf"] (env_ok elf_plain) =
  Sim.main
    {| Sim.FLAGS_i := false; Sim.FLAGS_interactive := false;
       Sim.FLAGS_output_dir := ""; Sim.FLAGS_semihost_htif := false;
       Sim.FLAGS_semihost_arm := false; Sim.FLAGS_stack_size := None;
       Sim.FLAGS_stack_end := None; Sim.FLAGS_exit_on_ecall := false |}
    ["rv32gv_sim"; "prog.elf"] (env_ok elf_plain).
Proof.
  apply (htif_ignored_without_symbols false false "" None None false
           ["rv32gv_sim"; "prog.elf"] (env_ok elf_plain)).
  vm_compute. reflexivity.
Defined.
